(** * go-debugtools: a trace-writing deep-equality comparator

    Shallow embedding of [deepequal.go].  The Go file is written against the
    [reflect] package; the embedding keeps that shape: the comparator is
    defined over an interface [Reflect] that lists exactly the [reflect.Value]
    methods the file calls, and a concrete model of Go values in a heap
    ([Module GoHeap]) implements the interface so that the comparator can be
    run on concrete inputs. *)

From Stdlib Require Import ZArith NArith Lia Ascii.
From stdpp Require Import gmap strings list pretty.

Local Open Scope string_scope.

(** ** Data model of the source *)

(** [reflect.Kind]: the enumeration the comparator switches on. *)
Module reflect.
Inductive Kind : Set :=
| Invalid | Bool
| Int | Int8 | Int16 | Int32 | Int64
| Uint | Uint8 | Uint16 | Uint32 | Uint64 | Uintptr
| Float32 | Float64 | Complex64 | Complex128
| Array | Chan | Func | Interface | Map | Ptr | Slice | String | Struct
| UnsafePointer.
End reflect.

Global Instance Kind_eq_dec : EqDecision reflect.Kind.
Proof. solve_decision. Defined.

(** [uintptr]: an unsigned machine word.  The comparator only compares
    addresses ([>] and [==]); it does no arithmetic on them. *)
Definition uintptr := N.

(** [reflect.Type]: type descriptors are compared by identity ([!=]) and
    printed; a descriptor is identified here with its canonical name. *)
Definition rtype := string.

(** [type visit struct { a1, a2 uintptr; typ reflect.Type }] *)
Record visit : Set := Visit { a1 : uintptr; a2 : uintptr; typ : rtype }.

Global Instance visit_eq_dec : EqDecision visit.
Proof. solve_decision. Defined.

Global Instance visit_countable : Countable visit.
Proof.
  refine (inj_countable' (λ v, (a1 v, a2 v, typ v))
                         (λ p, Visit p.1.1 p.1.2 p.2) _).
  by intros [].
Defined.

(** [type deepEqualState struct { visited map[visit]bool; depth int;
    sub bool; w io.Writer }].  The writer is always the [bytes.Buffer]
    created by [DeepEqual]; it is modelled by its contents. *)
Record deepEqualState : Type := State {
  visited : gmap visit bool;
  depth : Z;
  sub : bool;
  w : string
}.

(** ** Control effects: state, panics, bounded recursion *)

Inductive result (A : Type) : Type :=
| Ret (a : A)      (* the call returns *)
| Panic            (* a run-time panic unwinds the stack *)
| OutOfFuel.       (* the recursion went deeper than the fuel allows *)
Arguments Ret {A} a.
Arguments Panic {A}.
Arguments OutOfFuel {A}.

Definition M (A : Type) : Type := deepEqualState → result A * deepEqualState.

Definition ret {A} (a : A) : M A := λ s, (Ret a, s).
Definition bind {A B} (m : M A) (k : A → M B) : M B := λ s,
  match m s with
  | (Ret a, s') => k a s'
  | (Panic, s') => (Panic, s')
  | (OutOfFuel, s') => (OutOfFuel, s')
  end.

Declare Scope go_scope.
Delimit Scope go_scope with go.
Notation "x <- m ;; k" := (bind m (λ x, k))
  (at level 100, m at next level, k at level 200, right associativity) : go_scope.
Notation "m ;; k" := (bind m (λ _, k))
  (at level 100, k at level 200, right associativity) : go_scope.
Local Open Scope go_scope.

Definition panic {A} : M A := λ s, (Panic, s).
Definition diverge {A} : M A := λ s, (OutOfFuel, s).
Definition modify (f : deepEqualState → deepEqualState) : M unit :=
  λ s, (Ret tt, f s).
Definition gets {A} (f : deepEqualState → A) : M A := λ s, (Ret (f s), s).

(** [defer d] followed by [body]: [d] runs when [body] is left, on every exit
    path, a panic included. *)
Definition defer {A} (d : deepEqualState → deepEqualState) (body : M A) : M A :=
  λ s, let (r, s') := body s in (r, d s').

(** [for ... { if !body(x) { return false } }; return true] *)
Fixpoint forall_M {A} (body : A → M bool) (xs : list A) : M bool :=
  match xs with
  | [] => ret true
  | x :: xs' =>
    b <- body x;; if b then forall_M body xs' else ret false
  end.

(** ** Trace writer *)

Definition nl : string := String "010"%char EmptyString.

(** [fmt.Fprintln]: operands separated by one space, then a line break. *)
Fixpoint Sprint_spaced (vals : list string) : string :=
  match vals with
  | [] => EmptyString
  | [x] => x
  | x :: rest => x +:+ " " +:+ Sprint_spaced rest
  end.
Definition Sprintln (vals : list string) : string := Sprint_spaced vals +:+ nl.

(** [strings.Repeat] *)
Fixpoint Repeat (unit : string) (n : nat) : string :=
  match n with O => EmptyString | S n' => unit +:+ Repeat unit n' end.

Definition Fprint (txt : string) (s : deepEqualState) : deepEqualState :=
  State (visited s) (depth s) (sub s) (w s +:+ txt).
Definition set_sub (b : bool) (s : deepEqualState) : deepEqualState :=
  State (visited s) (depth s) b (w s).

(** The prologue shared by [println] and [printf]. *)
Definition indent (s : deepEqualState) : deepEqualState :=
  if sub s then set_sub false s
  else if (0 <? depth s)%Z then Fprint (Repeat "  " (Z.to_nat (depth s))) s
  else s.

Definition println (vals : list string) : M unit :=
  modify (λ s, Fprint (Sprintln vals) (indent s)).

(** [printf]: the caller passes the text [fmt.Fprintf] produces. *)
Definition printf (formatted : string) : M unit :=
  modify (λ s, Fprint formatted (indent s)).

Definition incDepth (s : deepEqualState) : deepEqualState :=
  State (visited s) (depth s + 1) (sub s) (w s).
Definition decDepth (s : deepEqualState) : deepEqualState :=
  State (visited s) (depth s - 1) (sub s) (w s).

(** [s.visited[v]]: a missing key reads as [false]. *)
Definition visited_get (v : visit) : M bool :=
  gets (λ s, default false (visited s !! v)).
(** [s.visited[v] = true] *)
Definition visited_set (v : visit) : M unit :=
  modify (λ s, State (<[v := true]> (visited s)) (depth s) (sub s) (w s)).

(** ** The part of package [reflect] the source calls *)

(** [Value] is [reflect.Value]; [boxed] is a non-nil [interface{}] value (a
    dynamic type with its data), so that [interface{}] is [option boxed]. *)
Class Reflect (Value boxed : Type) : Type := {
  ValueOf : boxed → Value;
  IsValid : Value → bool;
  Value_Type : Value → rtype;
  Value_Kind : Value → reflect.Kind;
  CanAddr : Value → bool;
  UnsafeAddr : Value → uintptr;
  Len : Value → nat;
  Index : Value → nat → Value;
  IsNil : Value → bool;
  Pointer : Value → uintptr;
  Elem : Value → Value;
  NumField : Value → nat;
  Field : Value → nat → Value;
  (** [v.Type().Field(i).Name] *)
  Field_Name : Value → nat → string;
  MapKeys : Value → list Value;
  MapIndex : Value → Value → Value;
  (** [v.Interface()] panics ([None]) when [v] was obtained by accessing an
      unexported struct field. *)
  Interface : Value → option boxed;
  (** the package-internal [valueInterface(v, false)]: no panic on values
      from unexported fields; [None] only for the zero [Value] *)
  valueInterface : Value → option boxed;
  (** [==] on two non-nil interface values *)
  boxed_eq : boxed → boxed → bool;
  (** [reflect.DeepEqual] of the standard library, as the scalar fallback
      calls it *)
  reflect_DeepEqual : boxed → boxed → bool;
  (** the text [fmt] produces for an operand: [%v] of a [reflect.Value],
      [%#v] of a [reflect.Value], [%#v] of an interface value *)
  fmt_v : Value → string;
  fmt_sharp_v_Value : Value → string;
  fmt_sharp_v : boxed → string
}.

(** [v.Type()] printed with [%v] is [Type.String()]. *)
Definition Type_String (t : rtype) : string := t.

Definition hard (k : reflect.Kind) : bool :=
  match k with
  | reflect.Array | reflect.Map | reflect.Slice | reflect.Struct => true
  | _ => false
  end.

(** [v.Interface()] inside the monad. *)
Definition Interface_M `{Reflect Value boxed} (v : Value) : M boxed :=
  match Interface v with
  | Some x => ret x
  | None => panic
  end.

(** ** The comparator *)

Section Comparator.
Context `{Reflect Value boxed}.

(** [func (s *deepEqualState) deepValueEqual(v1, v2 reflect.Value) bool],
    one activation at a time: [rec] stands for the method itself where the
    body calls it on sub-values. *)
Section Activation.
Variable rec : Value → Value → M bool.

(** The statement [switch v1.Kind() { ... }]. *)
Definition kind_switch (v1 v2 : Value) : M bool :=
  match Value_Kind v1 with
  | reflect.Array =>
    println ["Comparing arrays of type:"; Type_String (Value_Type v1)];;
    forall_M (λ i, rec (Index v1 i) (Index v2 i)) (seq 0 (Len v1))
  | reflect.Slice =>
    println ["Comparing slices of type:"; Type_String (Value_Type v1)];;
    if negb (eqb (IsNil v1) (IsNil v2)) then
      x1 <- Interface_M v1;;
      x2 <- Interface_M v2;;
      printf ("  " +:+ fmt_sharp_v x1 +:+ " != " +:+ fmt_sharp_v x2 +:+ nl);;
      println ["  One of the slices is nil, so not equal"];;
      ret false
    else if negb (Len v1 =? Len v2)%nat then
      println ["  Unequal lengths, so not equal"];;
      ret false
    else if (Pointer v1 =? Pointer v2)%N then
      println ["  Pointers equal, so equal"];;
      ret true
    else
      forall_M (λ i, rec (Index v1 i) (Index v2 i)) (seq 0 (Len v1))
  | reflect.Interface =>
    println ["Comparing interfaces of type:"; Type_String (Value_Type v1)];;
    if IsNil v1 || IsNil v2 then
      println ["  One of the interfaces is nil, so not equal"];;
      ret (eqb (IsNil v1) (IsNil v2))
    else rec (Elem v1) (Elem v2)
  | reflect.Ptr =>
    println ["Comparing pointers of type:"; Type_String (Value_Type v1)];;
    rec (Elem v1) (Elem v2)
  | reflect.Struct =>
    println ["Comparing structs of type:"; Type_String (Value_Type v1)];;
    forall_M (λ i,
                printf ("  " +:+ Field_Name v1 i +:+ ": ");;
                modify (set_sub true);;
                rec (Field v1 i) (Field v2 i))
             (seq 0 (NumField v1))
  | reflect.Map =>
    println ["Comparing map of type:"; Type_String (Value_Type v1)];;
    if negb (eqb (IsNil v1) (IsNil v2)) then
      println ["  One of the maps is nil, so not equal"];;
      ret false
    else if negb (Len v1 =? Len v2)%nat then
      println ["  Lengths don't match, so not equal"];;
      ret false
    else if (Pointer v1 =? Pointer v2)%N then
      println ["  Same pointer, so equal"];;
      ret true
    else
      forall_M (λ k,
                  printf (fmt_sharp_v_Value k +:+ ": ");;
                  modify (set_sub true);;
                  rec (MapIndex v1 k) (MapIndex v2 k))
               (MapKeys v1)
  | reflect.Func =>
    if IsNil v1 && IsNil v2 then
      println ["  Both nil functions, so equal"];;
      ret true
    else
      println ["  Not both nil functions, so not equal"];;
      ret false
  | _ =>
    x1 <- Interface_M v1;;
    x2 <- Interface_M v2;;
    if reflect_DeepEqual x1 x2 then
      y1 <- Interface_M v1;;
      y2 <- Interface_M v2;;
      printf (fmt_sharp_v y1 +:+ " == " +:+ fmt_sharp_v y2 +:+ nl);;
      ret true
    else
      y1 <- Interface_M v1;;
      y2 <- Interface_M v2;;
      printf (fmt_sharp_v y1 +:+ " != " +:+ fmt_sharp_v y2 +:+ nl);;
      ret false
  end.

(** [if addr1 > addr2 { addr1, addr2 = addr2, addr1 }] *)
Definition canonicalize (addr1 addr2 : uintptr) : uintptr * uintptr :=
  if (addr2 <? addr1)%N then (addr2, addr1) else (addr1, addr2).

(** The statement [if v1.CanAddr() && v2.CanAddr() && hard(v1.Kind()) { ... }];
    [rest] is what follows it when it does not return. *)
Definition cycle_guard (v1 v2 : Value) (rest : M bool) : M bool :=
  if CanAddr v1 && CanAddr v2 && hard (Value_Kind v1) then
    let '(addr1, addr2) := canonicalize (UnsafeAddr v1) (UnsafeAddr v2) in
    if (addr1 =? addr2)%N then
      println ["  Same address, so equal"];;
      ret true
    else
      let v := Visit addr1 addr2 (Value_Type v1) in
      seen <- visited_get v;;
      if seen then
        println ["  Already visited, so equal"];;
        ret true
      else
        visited_set v;;
        rest
  else rest.

Definition activation (v1 v2 : Value) : M bool :=
  modify incDepth;;
  defer decDepth (
    if negb (IsValid v1) || negb (IsValid v2) then
      println ["Something is not valid:"; fmt_v v1; fmt_v v2];;
      ret (eqb (IsValid v1) (IsValid v2))
    else if negb (bool_decide (Value_Type v1 = Value_Type v2)) then
      println ["Types don't match"];;
      ret false
    else
      cycle_guard v1 v2 (kind_switch v1 v2)).
End Activation.

(** [fuel] bounds the depth of the recursion. *)
Fixpoint deepValueEqual (fuel : nat) (v1 v2 : Value) : M bool :=
  match fuel with
  | O => diverge
  | S fuel => activation (deepValueEqual fuel) v1 v2
  end.

(** The state [DeepEqual] creates. *)
Definition initial_state : deepEqualState := State ∅ (-1) false EmptyString.

(** What a call of the public entry point does. *)
Inductive outcome : Type :=
| Returns (equal : bool) (trace : string)
| Panics
| Diverges.

(** [func DeepEqual(a1, a2 interface{}) (bool, string)] *)
Definition DeepEqual (fuel : nat) (a1 a2 : option boxed) : outcome :=
  match a1, a2 with
  | Some x1, Some x2 =>
    let v1 := ValueOf x1 in
    let v2 := ValueOf x2 in
    if negb (bool_decide (Value_Type v1 = Value_Type v2)) then
      Returns false EmptyString
    else
      match deepValueEqual fuel v1 v2 initial_state with
      | (Ret b, s) => Returns b (w s)
      | (Panic, _) => Panics
      | (OutOfFuel, _) => Diverges
      end
  | None, None => Returns true EmptyString
  | _, _ => Returns false EmptyString
  end.

(** *** The standard library's algorithm

    [reflect.DeepEqual] as the release the source was derived from has it
    (the source's header says [Derived from reflect.DeepEqual]): the same
    decision procedure with no trace, and the scalar fallback written
    [valueInterface(v1, false) == valueInterface(v2, false)]. *)
Section StdActivation.
Variable rec : Value → Value → M bool.

Definition std_kind_switch (v1 v2 : Value) : M bool :=
  match Value_Kind v1 with
  | reflect.Array =>
    forall_M (λ i, rec (Index v1 i) (Index v2 i)) (seq 0 (Len v1))
  | reflect.Slice =>
    if negb (eqb (IsNil v1) (IsNil v2)) then ret false
    else if negb (Len v1 =? Len v2)%nat then ret false
    else if (Pointer v1 =? Pointer v2)%N then ret true
    else forall_M (λ i, rec (Index v1 i) (Index v2 i)) (seq 0 (Len v1))
  | reflect.Interface =>
    if IsNil v1 || IsNil v2 then ret (eqb (IsNil v1) (IsNil v2))
    else rec (Elem v1) (Elem v2)
  | reflect.Ptr => rec (Elem v1) (Elem v2)
  | reflect.Struct =>
    forall_M (λ i, rec (Field v1 i) (Field v2 i)) (seq 0 (NumField v1))
  | reflect.Map =>
    if negb (eqb (IsNil v1) (IsNil v2)) then ret false
    else if negb (Len v1 =? Len v2)%nat then ret false
    else if (Pointer v1 =? Pointer v2)%N then ret true
    else forall_M (λ k, rec (MapIndex v1 k) (MapIndex v2 k)) (MapKeys v1)
  | reflect.Func => ret (IsNil v1 && IsNil v2)
  | _ =>
    match valueInterface v1, valueInterface v2 with
    | Some x1, Some x2 => ret (boxed_eq x1 x2)
    | _, _ => panic
    end
  end.

Definition std_cycle_guard (v1 v2 : Value) (rest : M bool) : M bool :=
  if CanAddr v1 && CanAddr v2 && hard (Value_Kind v1) then
    let '(addr1, addr2) := canonicalize (UnsafeAddr v1) (UnsafeAddr v2) in
    if (addr1 =? addr2)%N then ret true
    else
      let v := Visit addr1 addr2 (Value_Type v1) in
      seen <- visited_get v;;
      if seen then ret true
      else visited_set v;; rest
  else rest.

Definition std_activation (v1 v2 : Value) : M bool :=
  if negb (IsValid v1) || negb (IsValid v2) then
    ret (eqb (IsValid v1) (IsValid v2))
  else if negb (bool_decide (Value_Type v1 = Value_Type v2)) then
    ret false
  else
    std_cycle_guard v1 v2 (std_kind_switch v1 v2).
End StdActivation.

Fixpoint std_deepValueEqual (fuel : nat) (v1 v2 : Value) : M bool :=
  match fuel with
  | O => diverge
  | S fuel => std_activation (std_deepValueEqual fuel) v1 v2
  end.

Definition std_DeepEqual (fuel : nat) (a1 a2 : option boxed) : result bool :=
  match a1, a2 with
  | Some x1, Some x2 =>
    let v1 := ValueOf x1 in
    let v2 := ValueOf x2 in
    if negb (bool_decide (Value_Type v1 = Value_Type v2)) then Ret false
    else (std_deepValueEqual fuel v1 v2 initial_state).1
  | None, None => Ret true
  | _, _ => Ret false
  end.
End Comparator.

(** What the source relies on from [reflect.ValueOf]: the [Value] of an
    interface value is valid, is not addressable, and was not obtained from
    an unexported field. *)
Class ReflectLaws `{Reflect Value boxed} : Prop := {
  ValueOf_IsValid : ∀ x, IsValid (ValueOf x) = true;
  ValueOf_CanAddr : ∀ x, CanAddr (ValueOf x) = false;
  ValueOf_Interface : ∀ x, Interface (ValueOf x) = Some x
}.

(** ** A model of Go values for running the comparator

    Values are stored in a heap of variables (one per allocation) and of map
    objects.  A [reflect.Value] is a typed datum together with the two flags
    the source observes through the API: whether it is addressable (and where
    it lives) and whether it was reached through an unexported struct field.
    Pointers refer to whole variables and a slice covers a prefix of its
    backing array; this restricts which Go heaps can be written down, not how
    the ones that can are inspected. *)
Module GoHeap.

Inductive scalar : Set :=
| SBool (b : bool)
| SInt (n : Z)
| SFloat64 (bits : Z)      (* the IEEE-754 binary64 bit pattern *)
| SString (s : string).

Inductive data : Set :=
| DScalar (x : scalar)
| DArray (elems : list tval)
| DStruct (fields : list (string * tval))   (* field name, field value *)
| DPtr (p : uintptr)                        (* 0 is nil *)
| DSlice (p : uintptr) (len : nat)          (* 0 is the nil slice *)
| DMap (p : uintptr)                        (* 0 is the nil map *)
| DIface (x : option tval)
| DFunc (p : uintptr)                       (* 0 is the nil func *)
with tval : Set := TV (t : rtype) (d : data).

(** Variables by address, and map objects by address, each with its
    entries in the order a [range] visits them. *)
Record heap : Type := Heap {
  objects : gmap uintptr tval;
  hmaps : gmap uintptr (list (tval * tval))
}.

Inductive Value : Type :=
| Zero                                              (* [reflect.Value{}] *)
| Val (x : tval) (addr : option uintptr) (ro : bool).

Definition tval_type (x : tval) : rtype := match x with TV t _ => t end.
Definition tval_data (x : tval) : data := match x with TV _ d => d end.

(** Size in bytes on a 64-bit target, every scalar padded to a word. *)
Fixpoint size (x : tval) : N :=
  match x with
  | TV _ d =>
    match d with
    | DScalar (SString _) => 16
    | DScalar _ => 8
    | DArray es => (fix go (l : list tval) : N :=
                      match l with [] => 0 | e :: l' => size e + go l' end) es
    | DStruct fs => (fix go (l : list (string * tval)) : N :=
                       match l with [] => 0 | f :: l' => size f.2 + go l' end) fs
    | DPtr _ => 8
    | DSlice _ _ => 24
    | DMap _ => 8
    | DIface _ => 16
    | DFunc _ => 8
    end
  end%N.

Definition offset (es : list tval) (i : nat) : N :=
  foldr (λ e acc, size e + acc)%N 0%N (take i es).

(** A field is exported when its name starts with an upper-case letter;
    field names are ASCII here. *)
Definition exported (name : string) : bool :=
  match name with
  | String c _ => let n := nat_of_ascii c in (65 <=? n)%nat && (n <=? 90)%nat
  | EmptyString => false
  end.

Definition isNaN (bits : Z) : bool :=
  (Z.land (Z.shiftr bits 52) 2047 =? 2047)%Z && negb (Z.land bits (2 ^ 52 - 1) =? 0)%Z.
Definition float64_eq (a b : Z) : bool :=
  negb (isNaN a) && negb (isNaN b) &&
  ((a =? b)%Z || ((Z.land a (2 ^ 63 - 1) =? 0)%Z && (Z.land b (2 ^ 63 - 1) =? 0)%Z)).

(** Go's [==] on scalars. *)
Definition scalar_eq (x y : scalar) : bool :=
  match x, y with
  | SBool a, SBool b => eqb a b
  | SInt a, SInt b => (a =? b)%Z
  | SFloat64 a, SFloat64 b => float64_eq a b
  | SString a, SString b => bool_decide (a = b)
  | _, _ => false
  end.

(** Go's [==] on two interface values holding comparable data; the
    comparable data of this model are scalars and pointers (no arrays or
    structs as map keys). *)
Definition tval_eq (x y : tval) : bool :=
  bool_decide (tval_type x = tval_type y) &&
  match tval_data x, tval_data y with
  | DScalar a, DScalar b => scalar_eq a b
  | DPtr p, DPtr q => (p =? q)%N
  | _, _ => false
  end.

Definition kind_of (d : data) : reflect.Kind :=
  match d with
  | DScalar (SBool _) => reflect.Bool
  | DScalar (SInt _) => reflect.Int
  | DScalar (SFloat64 _) => reflect.Float64
  | DScalar (SString _) => reflect.String
  | DArray _ => reflect.Array
  | DStruct _ => reflect.Struct
  | DPtr _ => reflect.Ptr
  | DSlice _ _ => reflect.Slice
  | DMap _ => reflect.Map
  | DIface _ => reflect.Interface
  | DFunc _ => reflect.Func
  end.

Definition quote : string := String "034"%char EmptyString.

Section Inspect.
Variable h : heap.
(** Text of the operands this model does not render itself. *)
Variable render : tval → string.

Definition entries (p : uintptr) : list (tval * tval) :=
  default [] (hmaps h !! p).

Definition backing (p : uintptr) : list tval :=
  match objects h !! p with
  | Some (TV _ (DArray es)) => es
  | _ => []
  end.

Definition g_Index (v : Value) (i : nat) : Value :=
  match v with
  | Val (TV _ (DArray es)) a ro =>
    match es !! i with
    | Some e => Val e ((λ base, base + offset es i)%N <$> a) ro
    | None => Zero
    end
  | Val (TV _ (DSlice p n)) _ ro =>
    if (i <? n)%nat then
      match backing p !! i with
      | Some e => Val e (Some (p + offset (backing p) i)%N) ro
      | None => Zero
      end
    else Zero
  | _ => Zero
  end.

Definition g_Elem (v : Value) : Value :=
  match v with
  | Val (TV _ (DPtr p)) _ ro =>
    if (p =? 0)%N then Zero
    else match objects h !! p with
         | Some x => Val x (Some p) ro
         | None => Zero
         end
  | Val (TV _ (DIface (Some x))) _ ro => Val x None ro
  | _ => Zero
  end.

(** A field reached through an unexported name carries the read-only flag
    on to everything below it; the structs of this model have no embedded
    fields. *)
Definition g_Field (v : Value) (i : nat) : Value :=
  match v with
  | Val (TV _ (DStruct fs)) a ro =>
    match fs !! i with
    | Some (name, x) =>
      Val x ((λ base, base + offset (snd <$> fs) i)%N <$> a)
          (ro || negb (exported name))
    | None => Zero
    end
  | _ => Zero
  end.

Definition g_Field_Name (v : Value) (i : nat) : string :=
  match v with
  | Val (TV _ (DStruct fs)) _ _ => default EmptyString (fst <$> fs !! i)
  | _ => EmptyString
  end.

Definition g_MapKeys (v : Value) : list Value :=
  match v with
  | Val (TV _ (DMap p)) _ ro => (λ e, Val e.1 None ro) <$> entries p
  | _ => []
  end.

(** Map access: the first entry whose key is [==] to [k]. *)
Fixpoint lookup_key (k : tval) (es : list (tval * tval)) : option tval :=
  match es with
  | [] => None
  | (k', x) :: es' => if tval_eq k' k then Some x else lookup_key k es'
  end.

Definition g_MapIndex (v key : Value) : Value :=
  match v, key with
  | Val (TV _ (DMap p)) _ ro, Val k _ rok =>
    match lookup_key k (entries p) with
    | Some x => Val x None (ro || rok)
    | None => Zero
    end
  | _, _ => Zero
  end.

Definition g_Len (v : Value) : nat :=
  match v with
  | Val (TV _ (DArray es)) _ _ => length es
  | Val (TV _ (DSlice _ n)) _ _ => n
  | Val (TV _ (DMap p)) _ _ => length (entries p)
  | Val (TV _ (DScalar (SString s))) _ _ => String.length s
  | _ => 0
  end.

Definition g_IsNil (v : Value) : bool :=
  match v with
  | Val (TV _ (DPtr p)) _ _ | Val (TV _ (DSlice p _)) _ _
  | Val (TV _ (DMap p)) _ _ | Val (TV _ (DFunc p)) _ _ => (p =? 0)%N
  | Val (TV _ (DIface None)) _ _ => true
  | _ => false
  end.

Definition g_Pointer (v : Value) : uintptr :=
  match v with
  | Val (TV _ (DPtr p)) _ _ | Val (TV _ (DSlice p _)) _ _
  | Val (TV _ (DMap p)) _ _ | Val (TV _ (DFunc p)) _ _ => p
  | _ => 0%N
  end.

Definition g_NumField (v : Value) : nat :=
  match v with
  | Val (TV _ (DStruct fs)) _ _ => length fs
  | _ => 0
  end.

(** [v.Interface()]: refused for a value that carries the read-only
    flag. *)
Definition g_Interface (v : Value) : option tval :=
  match v with
  | Val x _ false => Some x
  | _ => None
  end.

Definition g_valueInterface (v : Value) : option tval :=
  match v with
  | Val x _ _ => Some x
  | Zero => None
  end.

(** The library's [DeepEqual] on the kinds that reach the source's
    scalar fallback, where it is [==]. *)
Definition g_reflect_DeepEqual (x y : tval) : bool := tval_eq x y.

Definition invalid_text : string := "<invalid reflect.Value>".

Definition g_fmt_sharp_v (x : tval) : string :=
  match x with
  | TV _ (DScalar (SInt n)) => pretty n
  | TV _ (DScalar (SBool b)) => if b then "true" else "false"
  | TV _ (DScalar (SString s)) => quote +:+ s +:+ quote
  | TV _ (DScalar (SFloat64 b)) => if isNaN b then "NaN" else render x
  | TV t (DSlice p n) =>
    if (p =? 0)%N then t +:+ "(nil)"
    else if (n =? 0)%nat then t +:+ "{}"
    else render x
  | _ => render x
  end.

Definition g_fmt_v (v : Value) : string :=
  match v with
  | Zero => invalid_text
  | Val (TV _ (DScalar (SInt n))) _ _ => pretty n
  | Val (TV _ (DScalar (SBool b))) _ _ => if b then "true" else "false"
  | Val (TV _ (DScalar (SString s))) _ _ => s
  | Val x _ _ => render x
  end.

Definition g_fmt_sharp_v_Value (v : Value) : string :=
  match v with
  | Zero => invalid_text
  | Val x _ _ => g_fmt_sharp_v x
  end.

Definition GoReflect : Reflect Value tval := {|
  ValueOf := λ x, Val x None false;
  IsValid := λ v, match v with Zero => false | Val _ _ _ => true end;
  Value_Type := λ v, match v with Zero => EmptyString | Val x _ _ => tval_type x end;
  Value_Kind := λ v, match v with Zero => reflect.Invalid | Val x _ _ => kind_of (tval_data x) end;
  CanAddr := λ v, match v with Val _ (Some _) _ => true | _ => false end;
  UnsafeAddr := λ v, match v with Val _ (Some a) _ => a | _ => 0%N end;
  Len := g_Len;
  Index := g_Index;
  IsNil := g_IsNil;
  Pointer := g_Pointer;
  Elem := g_Elem;
  NumField := g_NumField;
  Field := g_Field;
  Field_Name := g_Field_Name;
  MapKeys := g_MapKeys;
  MapIndex := g_MapIndex;
  Interface := g_Interface;
  valueInterface := g_valueInterface;
  boxed_eq := tval_eq;
  reflect_DeepEqual := g_reflect_DeepEqual;
  fmt_v := g_fmt_v;
  fmt_sharp_v_Value := g_fmt_sharp_v_Value;
  fmt_sharp_v := g_fmt_sharp_v
|}.
End Inspect.

(** Running the entry point on a heap; the operands the model does not
    render itself (composite values, floats other than NaN) are rendered
    as [...]. *)
Definition run (h : heap) (fuel : nat) (a1 a2 : option tval) : outcome :=
  DeepEqual (H := GoReflect h (λ _, "...")) fuel a1 a2.
Definition run_std (h : heap) (fuel : nat) (a1 a2 : option tval) : result bool :=
  std_DeepEqual (H := GoReflect h (λ _, "...")) fuel a1 a2.

Definition int (n : Z) : tval := TV "int" (DScalar (SInt n)).
Definition str (s : string) : tval := TV "string" (DScalar (SString s)).
Definition float64 (bits : Z) : tval := TV "float64" (DScalar (SFloat64 bits)).

Definition empty_heap : heap := Heap ∅ ∅.
End GoHeap.

(** ** Sample inputs *)
Module Samples.
Import GoHeap.
Local Open Scope N_scope.

(** [type T struct { F func() }], holding a non-nil func. *)
Definition record_with_func : tval :=
  TV "main.T" (DStruct [("F", TV "func()" (DFunc 77))]).

(** [type A struct { X int }] and [type B struct { X int }] *)
Definition a_value : tval := TV "main.A" (DStruct [("X", int 1)]).
Definition b_value : tval := TV "main.B" (DStruct [("X", int 1)]).

(** [var backing [0]int] at address 4096; [[]int(nil)] and [[]int{}] *)
Definition slice_heap : heap :=
  Heap {[ 4096 := TV "[0]int" (DArray []) ]} ∅.
Definition nil_slice : tval := TV "[]int" (DSlice 0 0).
Definition empty_slice : tval := TV "[]int" (DSlice 4096 0).

(** [m := map[string]int{"a": 1}] at address 8192, and two variables of type
    [A] at addresses 4096 and 4104 with a pointer to each. *)
Definition identity_heap : heap :=
  Heap (<[ 4096 := a_value ]> {[ 4104 := a_value ]}) {[ 8192 := [(str "a", int 1)] ]}.
Definition a_map : tval := TV "map[string]int" (DMap 8192).
Definition a_pointer : tval := TV "*main.A" (DPtr 4096).
Definition another_pointer : tval := TV "*main.A" (DPtr 4104).

(** [type U struct { a int }] and
    [type Account struct { ID int; secret string }] *)
Definition unexported_int : tval := TV "main.U" (DStruct [("a", int 1)]).
Definition account : tval :=
  TV "main.Account" (DStruct [("ID", int 7); ("secret", str "x")]).

(** Bit patterns of the float64 values NaN, 1 and 2. *)
Definition NaN_bits : Z := 0x7FF8000000000001.
Definition one_bits : Z := 0x3FF0000000000000.
Definition two_bits : Z := 0x4000000000000000.

(** [m1 := map[float64]int{math.NaN(): 0, 1: 0}] at 4096 and
    [m2 := map[float64]int{1: 0, 2: 0}] at 8192 *)
Definition nan_heap : heap :=
  Heap ∅ (<[ 4096 := [(float64 NaN_bits, int 0); (float64 one_bits, int 0)] ]>
          {[ 8192 := [(float64 one_bits, int 0); (float64 two_bits, int 0)] ]}).
Definition nan_map : tval := TV "map[float64]int" (DMap 4096).
Definition plain_map : tval := TV "map[float64]int" (DMap 8192).

(** [x, y := 1, 1] at 4096 and 4104; [[2]*int{&x, &y}] and [[2]*int{&y, &x}] *)
Definition pointer_heap : heap :=
  Heap (<[ 4096 := int 1 ]> {[ 4104 := int 1 ]}) ∅.
Definition pointers_xy : list tval := [TV "*int" (DPtr 4096); TV "*int" (DPtr 4104)].
Definition pointers_yx : list tval := [TV "*int" (DPtr 4104); TV "*int" (DPtr 4096)].

(** [map[string]func(){"f": f}], built twice *)
Definition func_heap : heap :=
  Heap ∅ (<[ 4096 := [(str "f", TV "func()" (DFunc 77))] ]>
          {[ 8192 := [(str "f", TV "func()" (DFunc 77))] ]}).
Definition func_map_1 : tval := TV "map[string]func()" (DMap 4096).
Definition func_map_2 : tval := TV "map[string]func()" (DMap 8192).

(** [map[string]int] with the pairs a:1, b:2 inserted in the two orders, and
    the arrays [[2]int{1, 2}] and [[2]int{2, 1}] *)
Definition order_heap : heap :=
  Heap ∅ (<[ 4096 := [(str "a", int 1); (str "b", int 2)] ]>
          {[ 8192 := [(str "b", int 2); (str "a", int 1)] ]}).
Definition map_ab : tval := TV "map[string]int" (DMap 4096).
Definition map_ba : tval := TV "map[string]int" (DMap 8192).
Definition array_12 : tval := TV "[2]int" (DArray [int 1; int 2]).
Definition array_21 : tval := TV "[2]int" (DArray [int 2; int 1]).
(** [[3]int{1, 2, 3}] and [[3]int{1, 3, 2}]: the same elements, in an order
    that differs from index 1 on *)
Definition array_123 : tval := TV "[3]int" (DArray [int 1; int 2; int 3]).
Definition array_132 : tval := TV "[3]int" (DArray [int 1; int 3; int 2]).

(** [type Node struct { Val int; Next *Node }]; two rings of two nodes,
    [a1 -> a2 -> a1] at 4096 and 4112 and [b1 -> b2 -> b1] at 8192 and
    8208, with the same payloads. *)
Definition node (val : Z) (next : uintptr) : tval :=
  TV "main.Node" (DStruct [("Val", int val); ("Next", TV "*main.Node" (DPtr next))]).
Definition ring_heap : heap :=
  Heap (<[ 4096 := node 1 4112 ]> (<[ 4112 := node 2 4096 ]>
        (<[ 8192 := node 1 8208 ]> {[ 8208 := node 2 8192 ]}))) ∅.
Definition ring_a : tval := TV "*main.Node" (DPtr 4096).
Definition ring_b : tval := TV "*main.Node" (DPtr 8192).

(** The pairs a comparison of the two rings can reach: the two pointers, and
    for each of the two pairs of nodes the nodes and their two fields. *)
Definition ring_pair (a b : uintptr) : list (Value * Value) :=
  let n1 := Val (default (int 0) (objects ring_heap !! a)) (Some a) false in
  let n2 := Val (default (int 0) (objects ring_heap !! b)) (Some b) false in
  [ (n1, n2);
    (g_Field n1 0, g_Field n2 0);
    (g_Field n1 1, g_Field n2 1) ].
Definition ring_reach : list (Value * Value) :=
  (Val ring_a None false, Val ring_b None false)
  :: ring_pair 4096 8192 ++ ring_pair 4112 8208.

(** Records rank above their fields. *)
Definition ring_rank (v1 v2 : Value) : nat :=
  match v1 with
  | Val (TV _ (DStruct _)) _ _ => 1
  | _ => 0
  end.

(** A record that points to itself, built twice: [a := &Node{1, nil};
    a.Next = a] at 4096 and the same at 8192; and a ring whose second node
    holds another payload. *)
Definition loop_heap : heap :=
  Heap (<[ 4096 := node 1 4096 ]> (<[ 8192 := node 1 8192 ]>
        (<[ 12288 := node 1 12304 ]> {[ 12304 := node 3 12288 ]}))) ∅.
Definition loop_a : tval := TV "*main.Node" (DPtr 4096).
Definition loop_b : tval := TV "*main.Node" (DPtr 8192).
Definition loop_c : tval := TV "*main.Node" (DPtr 12288).

(** [type S struct { Name string; Tags []string }] with the tags
    [{"x", "y"}] at 4096 and [{"x", "z"}] at 8192 *)
Definition tags_heap : heap :=
  Heap (<[ 4096 := TV "[2]string" (DArray [str "x"; str "y"]) ]>
        {[ 8192 := TV "[2]string" (DArray [str "x"; str "z"]) ]}) ∅.
Definition tagged (tags : uintptr) : tval :=
  TV "main.S" (DStruct [("Name", str "a"); ("Tags", TV "[]string" (DSlice tags 2))]).

(** A nil and a non-nil [func()]. *)
Definition nil_func : tval := TV "func()" (DFunc 0).
Definition some_func : tval := TV "func()" (DFunc 77).

(** [var m map[string]int] and [map[string]int{}] at 4096; a map of one
    entry at 8192; two maps of two entries at 12288 and 20480, the second
    lacking the key [b] of the first; slices of length 1 and 2 over an array
    at 16384. *)
Definition sizes_heap : heap :=
  Heap {[ 16384 := TV "[2]int" (DArray [int 1; int 2]) ]}
       (<[ 4096 := [] ]>
        (<[ 8192 := [(str "a", int 1)] ]>
         (<[ 12288 := [(str "a", int 1); (str "b", int 2)] ]>
          {[ 20480 := [(str "a", int 1); (str "d", int 2)] ]}))).
Definition nil_map : tval := TV "map[string]int" (DMap 0).
Definition empty_map : tval := TV "map[string]int" (DMap 4096).
Definition map_of_one : tval := TV "map[string]int" (DMap 8192).
Definition map_of_two : tval := TV "map[string]int" (DMap 12288).
Definition map_of_two_other : tval := TV "map[string]int" (DMap 20480).
Definition slice_of_one : tval := TV "[]int" (DSlice 16384 1).
Definition slice_of_two : tval := TV "[]int" (DSlice 16384 2).

(** [var p *int] and [q := &x] with [x := 1] at 4096; [r := &T{F: f}] with the
    record at 8192. *)
Definition pointer_samples_heap : heap :=
  Heap (<[ 4096 := int 1 ]> {[ 8192 := record_with_func ]}) ∅.
Definition nil_pointer : tval := TV "*int" (DPtr 0).
Definition int_pointer : tval := TV "*int" (DPtr 4096).
Definition record_pointer : tval := TV "*main.T" (DPtr 8192).

(** A nil and a non-nil value of interface type [error], as a field or an
    element holds them. *)
Definition nil_error : tval := TV "error" (DIface None).
Definition some_error : tval := TV "error" (DIface (Some (str "boom"))).
(** [type S struct { M map[string]S }]: a record that holds a map that
    holds the record, built twice: [m := map[string]S{}; m["x"] = S{m}]
    with the map at 4096, and the same with the map at 8192. *)
Definition map_holder (p : uintptr) : tval :=
  TV "main.S" (DStruct [("M", TV "map[string]main.S" (DMap p))]).
Definition map_cycle_heap : heap :=
  Heap ∅ (<[ 4096 := [(str "x", map_holder 4096)] ]>
          {[ 8192 := [(str "x", map_holder 8192)] ]}).
Definition holder_a : tval := map_holder 4096.
Definition holder_b : tval := map_holder 8192.
Definition inner_map (p : uintptr) : tval := TV "map[string]main.S" (DMap p).

(** [p, q := &A{1}, &A{2}] with the records at 4096 and 4104;
    [[2]*A{p, q}] and [[2]*A{q, p}] *)
Definition record_1 : tval := TV "main.A" (DStruct [("X", int 1)]).
Definition record_2 : tval := TV "main.A" (DStruct [("X", int 2)]).
Definition records_heap : heap :=
  Heap (<[ 4096 := record_1 ]> {[ 4104 := record_2 ]}) ∅.
Definition pointer_p : tval := TV "*main.A" (DPtr 4096).
Definition pointer_q : tval := TV "*main.A" (DPtr 4104).
Definition records_pq : tval := TV "[2]*main.A" (DArray [pointer_p; pointer_q]).
Definition records_qp : tval := TV "[2]*main.A" (DArray [pointer_q; pointer_p]).
(** The visited sets in which the two records are not a pair in progress. *)
Definition records_unseen (m : gmap visit bool) : Prop :=
  m !! Visit 4096 4104 "main.A" = None.
End Samples.

(** ** Notions used in the statements *)

(** Every entry of the visited set has its smaller address first. *)
Definition canonical (m : gmap visit bool) : Prop :=
  ∀ k b, m !! k = Some b → (a1 k < a2 k)%N.

(** A relation [R] between the state before and the state after holds for
    every run of [m]. *)
Definition steps (R : deepEqualState → deepEqualState → Prop) {A} (m : M A) : Prop :=
  ∀ s, R s (m s).2.

(** The visited set keeps its keys and stays canonical. *)
Definition visited_step (s s' : deepEqualState) : Prop :=
  dom (visited s) ⊆ dom (visited s') ∧
  (canonical (visited s) → canonical (visited s')).

(** The trace only grows. *)
Definition trace_step (s s' : deepEqualState) : Prop :=
  (String.length (w s) ≤ String.length (w s'))%nat.

(** The kinds that reach the [default] branch of the switch. *)
Definition scalar_kind (k : reflect.Kind) : bool :=
  match k with
  | reflect.Array | reflect.Slice | reflect.Interface | reflect.Ptr
  | reflect.Struct | reflect.Map | reflect.Func => false
  | _ => true
  end.

(** Two values of one scalar type, not reached through an unexported field,
    on which the library's equality answers [b]. *)
Definition scalars_with_verdict `{Reflect Value boxed} (c1 c2 : Value) (b : bool) : Prop :=
  IsValid c1 = true ∧ IsValid c2 = true ∧
  Value_Type c1 = Value_Type c2 ∧
  scalar_kind (Value_Kind c1) = true ∧
  ∃ y1 y2, Interface c1 = Some y1 ∧ Interface c2 = Some y2 ∧
           reflect_DeepEqual y1 y2 = b.

(** *** Notions for the cycle guard *)

Section GuardNotions.
Context `{Reflect Value boxed}.

(** The pairs on which one activation on [(v1, v2)] calls the method again:
    the recursive calls of [kind_switch], under the conditions that lead to
    them. *)
Definition children (v1 v2 : Value) : list (Value * Value) :=
  if negb (IsValid v1) || negb (IsValid v2) then []
  else if negb (bool_decide (Value_Type v1 = Value_Type v2)) then []
  else
    match Value_Kind v1 with
    | reflect.Array => (λ i, (Index v1 i, Index v2 i)) <$> seq 0 (Len v1)
    | reflect.Slice =>
      if negb (eqb (IsNil v1) (IsNil v2)) then []
      else if negb (Len v1 =? Len v2)%nat then []
      else if (Pointer v1 =? Pointer v2)%N then []
      else (λ i, (Index v1 i, Index v2 i)) <$> seq 0 (Len v1)
    | reflect.Interface =>
      if IsNil v1 || IsNil v2 then [] else [(Elem v1, Elem v2)]
    | reflect.Ptr => [(Elem v1, Elem v2)]
    | reflect.Struct => (λ i, (Field v1 i, Field v2 i)) <$> seq 0 (NumField v1)
    | reflect.Map =>
      if negb (eqb (IsNil v1) (IsNil v2)) then []
      else if negb (Len v1 =? Len v2)%nat then []
      else if (Pointer v1 =? Pointer v2)%N then []
      else (λ k, (MapIndex v1 k, MapIndex v2 k)) <$> MapKeys v1
    | _ => []
    end.

(** The condition under which the cycle guard looks at a pair. *)
Definition guarded (v1 v2 : Value) : bool :=
  CanAddr v1 && CanAddr v2 && hard (Value_Kind v1).

(** The key the cycle guard uses for a pair. *)
Definition guard_key (v1 v2 : Value) : visit :=
  Visit (canonicalize (UnsafeAddr v1) (UnsafeAddr v2)).1
        (canonicalize (UnsafeAddr v1) (UnsafeAddr v2)).2
        (Value_Type v1).

(** A guarded pair whose key is not in the visited set yet. *)
Definition pending (s : deepEqualState) (p : Value * Value) : bool :=
  guarded p.1 p.2 && negb (default false (visited s !! guard_key p.1 p.2)).

Definition count_pending (s : deepEqualState) (reach : list (Value * Value)) : nat :=
  length (List.filter (pending s) reach).

(** What one activation checks on a pair before and instead of descending:
    the two values agree on validity, type, nil-ness and length, funcs are
    nil, and scalars are equal and may be boxed. *)
Definition locally_equal (v1 v2 : Value) : Prop :=
  if negb (IsValid v1) || negb (IsValid v2) then IsValid v1 = IsValid v2
  else
    Value_Type v1 = Value_Type v2 ∧
    match Value_Kind v1 with
    | reflect.Slice | reflect.Map => IsNil v1 = IsNil v2 ∧ Len v1 = Len v2
    | reflect.Interface => IsNil v1 = IsNil v2
    | reflect.Func => IsNil v1 = true ∧ IsNil v2 = true
    | reflect.Array | reflect.Ptr | reflect.Struct => True
    | _ => ∃ x1 x2, Interface v1 = Some x1 ∧ Interface v2 = Some x2 ∧
                    reflect_DeepEqual x1 x2 = true
    end.

(** The pairs a comparison can reach are listed in [reach]; every descent
    from one of them leads to a listed pair that either is covered by the
    cycle guard or has a smaller rank, so that every cycle passes through
    the guard. *)
Definition guarded_cycles (reach : list (Value * Value))
    (rank : Value → Value → nat) (bound : nat) : Prop :=
  ∀ v1 v2, (v1, v2) ∈ reach →
    (rank v1 v2 ≤ bound)%nat ∧
    ∀ c1 c2, (c1, c2) ∈ children v1 v2 →
      (c1, c2) ∈ reach ∧
      (guarded c1 c2 = true ∨ (rank c1 c2 < rank v1 v2)%nat).

(** Fuel that suffices for a comparison within [reach]. *)
Definition enough_fuel (reach : list (Value * Value)) (bound : nat) : nat :=
  bound + 2 + length reach * (bound + 2).

(** The two sides are structurally identical wherever the comparison can
    look. *)
Definition identical (reach : list (Value * Value)) : Prop :=
  ∀ x y, (x, y) ∈ reach → locally_equal x y.

(** A run that ends, and ends with true on identical inputs. *)
Definition ok (reach : list (Value * Value)) (m : M bool) (s : deepEqualState) : Prop :=
  (m s).1 ≠ OutOfFuel ∧ (identical reach → (m s).1 = Ret true).

(** With at most [n] pending pairs: a guarded pair needs
    [1 + n * (bound + 2)] levels of recursion, a pair of rank at most [r]
    needs [r + 1] more. *)
Definition guarded_level (reach : list (Value * Value)) (bound n : nat) : Prop :=
  ∀ fuel s v1 v2,
    (1 + n * (bound + 2) ≤ fuel)%nat → (v1, v2) ∈ reach →
    guarded v1 v2 = true → (count_pending s reach ≤ n)%nat →
    ok reach (deepValueEqual fuel v1 v2) s.

Definition ranked_level (reach : list (Value * Value))
    (rank : Value → Value → nat) (bound n r : nat) : Prop :=
  ∀ fuel s v1 v2,
    (r + 2 + n * (bound + 2) ≤ fuel)%nat → (v1, v2) ∈ reach →
    (rank v1 v2 ≤ r)%nat → (count_pending s reach ≤ n)%nat →
    ok reach (deepValueEqual fuel v1 v2) s.
End GuardNotions.

(** Entries of the visited set that are set stay set. *)
Definition seen_step (s s' : deepEqualState) : Prop :=
  ∀ k, visited s !! k = Some true → visited s' !! k = Some true.

(** Whenever [m] returns, [m'] returns the same verdict from a state with
    the same visited set. *)
Definition refines (m m' : M bool) : Prop :=
  ∀ s t b s', visited s = visited t → m s = (Ret b, s') →
    ∃ t', m' t = (Ret b, t') ∧ visited s' = visited t'.

(** *** Notions for the invariants of a run *)

(** The trace after is the trace before with a suffix. *)
Definition extends (s s' : deepEqualState) : Prop := ∃ suffix, w s' = w s +:+ suffix.

(** The nesting counter is the same. *)
Definition same_depth (s s' : deepEqualState) : Prop := depth s' = depth s.

(** A text made of complete lines. *)
Definition ends_with_nl (t : string) : Prop := ∃ u, t = u +:+ nl.

(** No label is pending and the trace ends with a line break. *)
Definition settled (s : deepEqualState) : Prop := sub s = false ∧ ends_with_nl (w s).

(** A run that returns leaves a settled state: from any state, or from a
    settled one. *)
Definition settles (m : M bool) : Prop := ∀ s b s', m s = (Ret b, s') → settled s'.
Definition stays_settled (m : M bool) : Prop :=
  ∀ s b s', settled s → m s = (Ret b, s') → settled s'.

(** A run that does not panic. *)
Definition calm (m : M bool) : Prop := ∀ s, (m s).1 ≠ Panic.

Section ReachNotions.
Context `{Reflect Value boxed}.

(** [reach] holds every pair a comparison started inside it can get to. *)
Definition closed_under_children (reach : list (Value * Value)) : Prop :=
  ∀ v1 v2 c1 c2, (v1, v2) ∈ reach → (c1, c2) ∈ children v1 v2 → (c1, c2) ∈ reach.

(** No valid value in [reach] was obtained through an unexported field:
    [Interface()] returns on each of them. *)
Definition boxable (reach : list (Value * Value)) : Prop :=
  ∀ v1 v2, (v1, v2) ∈ reach →
    (IsValid v1 = true → is_Some (Interface v1)) ∧
    (IsValid v2 = true → is_Some (Interface v2)).
End ReachNotions.


Section ShapeNotions.
Context `{Reflect Value boxed}.

End ShapeNotions.

(** *** Notions for the trace of scalar comparisons *)

(** The lines a fail-fast loop over [js] writes when element [j] produces
    [line j] and matches iff [same j]: the lines up to and including the first
    mismatch. *)
Fixpoint lines_until_mismatch (line : nat → string) (same : nat → bool)
    (js : list nat) : string :=
  match js with
  | [] => EmptyString
  | j :: js' => line j +:+ (if same j then lines_until_mismatch line same js' else EmptyString)
  end.

Section ScalarNotions.
Context `{Reflect Value boxed}.

(** The line the scalar fallback writes for two boxed values, unindented. *)
Definition scalar_line (x1 x2 : boxed) : string :=
  fmt_sharp_v x1 +:+ (if reflect_DeepEqual x1 x2 then " == " else " != ")
                 +:+ fmt_sharp_v x2 +:+ nl.

(** What the scalar fallback decides and writes for element [j] of two
    sequences; [d] stands in where [Interface()] does not return. *)
Definition element_same (d : boxed) (v1 v2 : Value) (j : nat) : bool :=
  reflect_DeepEqual (default d (Interface (Index v1 j)))
                    (default d (Interface (Index v2 j))).
Definition element_line (d : boxed) (v1 v2 : Value) (j : nat) : string :=
  "  " +:+ scalar_line (default d (Interface (Index v1 j)))
                       (default d (Interface (Index v2 j))).
End ScalarNotions.

(** *** Notions for the loops over sub-values *)

Section LoopNotions.
Context `{Reflect Value boxed}.

(** The comparison of two sub-values returns [b] from every state whose
    visited set is in [V]. *)
Definition finds (V : gmap visit bool → Prop) (fuel : nat)
    (c1 c2 : Value) (b : bool) : Prop :=
  ∀ s, V (visited s) → ∃ s', deepValueEqual fuel c1 c2 s = (Ret b, s').

(** The comparison of two sub-values, started with a visited set in [V],
    leaves a visited set in [V]. *)
Definition keeps (V : gmap visit bool → Prop) (fuel : nat)
    (c1 c2 : Value) : Prop :=
  ∀ s, V (visited s) → V (visited (deepValueEqual fuel c1 c2 s).2).
End LoopNotions.

(** * Properties *)

(** ** The monad and the trace writer *)

Lemma length_append (a b : string) :
  String.length (a +:+ b) = (String.length a + String.length b)%nat.
Proof. induction a as [|c a IH]; simpl; [done | by rewrite IH]. Qed.

Lemma bind_ret_l {A B} (a : A) (k : A → M B) (s : deepEqualState) :
  bind (ret a) k s = k a s.
Proof. reflexivity. Qed.

Lemma println_run (vals : list string) (s : deepEqualState) :
  println vals s = (Ret tt, Fprint (Sprintln vals) (indent s)).
Proof. reflexivity. Qed.

Lemma bind_modify_run {B} (f : deepEqualState → deepEqualState)
    (k : unit → M B) (s : deepEqualState) :
  bind (modify f) k s = k tt (f s).
Proof. reflexivity. Qed.

Lemma visited_indent s : visited (indent s) = visited s.
Proof. unfold indent. destruct (sub s); [done|]. by destruct (0 <? depth s)%Z. Qed.

Lemma depth_indent s : depth (indent s) = depth s.
Proof. unfold indent. destruct (sub s); [done|]. by destruct (0 <? depth s)%Z. Qed.

Lemma length_indent s : (String.length (w s) ≤ String.length (w (indent s)))%nat.
Proof.
  unfold indent. destruct (sub s); [done|].
  destruct (0 <? depth s)%Z; [|done]. simpl. rewrite length_append. lia.
Qed.

Lemma length_Sprintln vals : (1 ≤ String.length (Sprintln vals))%nat.
Proof. unfold Sprintln. rewrite length_append. simpl. lia. Qed.

Section EntryPoint.
Context `{Reflect Value boxed} `{!ReflectLaws}.

(** The first call of the comparator on two values of one type that are
    not addressable: the cycle guard is skipped. *)
Lemma DeepEqual_unfold fuel x1 x2 :
  Value_Type (ValueOf x1) = Value_Type (ValueOf x2) →
  DeepEqual fuel (Some x1) (Some x2) =
    match deepValueEqual fuel (ValueOf x1) (ValueOf x2) initial_state with
    | (Ret b, s) => Returns b (w s)
    | (Panic, _) => Panics
    | (OutOfFuel, _) => Diverges
    end.
Proof.
  intros Ht. unfold DeepEqual. rewrite bool_decide_eq_true_2; done.
Qed.
End EntryPoint.

Lemma append_assoc (a b c : string) : (a +:+ b) +:+ c = a +:+ (b +:+ c).
Proof.
  induction a as [|ch a IH]; [done|].
  change (String ch ((a +:+ b) +:+ c) = String ch (a +:+ b +:+ c)). by f_equal.
Qed.

Lemma Fprint_State txt v d b t :
  Fprint txt (State v d b t) = State v d b (t +:+ txt).
Proof. reflexivity. Qed.

Lemma indent_State_0 v t : indent (State v 0 false t) = State v 0 false t.
Proof. reflexivity. Qed.

Lemma incDepth_initial : incDepth initial_state = State ∅ 0 false EmptyString.
Proof. reflexivity. Qed.

(** Runs a straight-line prefix of the comparator from the initial state. *)
Ltac run_top :=
  unfold bind, println, printf, modify, ret;
  rewrite ?incDepth_initial;
  repeat (rewrite indent_State_0 || rewrite Fprint_State);
  cbn [w decDepth fst snd].

Lemma GoReflect_laws h render : ReflectLaws (H := GoHeap.GoReflect h render).
Proof. by split. Qed.

(** ** The public entry point *)

Section EntryPointClaims.
Context `{Reflect Value boxed} `{!ReflectLaws}.

(** C8. Two non-nil inputs whose static types differ: the entry point
    returns false with an empty trace, whatever the fuel, so the comparator never
    runs and nothing is written. *)
Theorem DeepEqual_type_mismatch (fuel : nat) (x1 x2 : boxed) :
  Value_Type (ValueOf x1) ≠ Value_Type (ValueOf x2) →
  DeepEqual fuel (Some x1) (Some x2) = Returns false EmptyString.
Proof.
  intros Hne. unfold DeepEqual. by rewrite bool_decide_eq_false_2.
Qed.

(** C5. A nil slice against a non-nil slice of the same type (an empty one
    in particular, the lengths are not looked at) compares unequal at the
    entry point; the trace is the header, the two rendered values and the
    verdict line. *)
Theorem DeepEqual_nil_slice_vs_empty (fuel : nat) (x1 x2 : boxed) :
  Value_Kind (ValueOf x1) = reflect.Slice →
  Value_Type (ValueOf x1) = Value_Type (ValueOf x2) →
  IsNil (ValueOf x1) ≠ IsNil (ValueOf x2) →
  DeepEqual (S fuel) (Some x1) (Some x2) =
    Returns false
      (Sprintln ["Comparing slices of type:";
                 Type_String (Value_Type (ValueOf x1))] +:+
       ("  " +:+ fmt_sharp_v x1 +:+ " != " +:+ fmt_sharp_v x2 +:+ nl) +:+
       Sprintln ["  One of the slices is nil, so not equal"]).
Proof.
  intros Hk Ht Hnil. rewrite DeepEqual_unfold by done.
  cbn [deepValueEqual]. unfold activation, cycle_guard, kind_switch.
  rewrite !ValueOf_IsValid, !ValueOf_CanAddr, Hk, <- Ht. cbn [negb orb andb].
  rewrite bool_decide_eq_true_2 by done. cbn [negb].
  unfold bind at 1. cbn [modify]. unfold defer.
  destruct (eqb (IsNil (ValueOf x1)) (IsNil (ValueOf x2))) eqn:E.
  { by apply eqb_prop in E. }
  cbn [negb]. unfold Interface_M. rewrite !ValueOf_Interface. run_top.
  f_equal. by rewrite !append_assoc.
Qed.
End EntryPointClaims.

Lemma DeepEqual_type_mismatch_witness :
  GoHeap.run GoHeap.empty_heap 0 (Some Samples.a_value) (Some Samples.b_value)
  = Returns false EmptyString.
Proof.
  apply (DeepEqual_type_mismatch (H := GoHeap.GoReflect GoHeap.empty_heap _)).
  vm_compute. discriminate.
Defined.

Lemma DeepEqual_nil_slice_vs_empty_witness :
  GoHeap.run Samples.slice_heap 1 (Some Samples.nil_slice) (Some Samples.empty_slice)
  = Returns false
      ("Comparing slices of type: []int" +:+ nl +:+
       "  []int(nil) != []int{}" +:+ nl +:+
       "  One of the slices is nil, so not equal" +:+ nl).
Proof.
  pose proof (GoReflect_laws Samples.slice_heap (λ _, "...")) as HL.
  apply (DeepEqual_nil_slice_vs_empty (H := GoHeap.GoReflect Samples.slice_heap _)).
  - reflexivity.
  - reflexivity.
  - vm_compute. discriminate.
Defined.

(** ** Identity short-circuits *)

Section Identity.
Context `{Reflect Value boxed} `{!ReflectLaws}.

(** Inside the recursion: two addressable values of one type, of kind array,
    slice, map or struct, that live at the same address.  The call writes the
    short-circuit line and returns, leaving the visited set as it was. *)
Lemma deepValueEqual_same_address fuel (v1 v2 : Value) (s : deepEqualState) :
  IsValid v1 = true → IsValid v2 = true →
  Value_Type v1 = Value_Type v2 →
  CanAddr v1 = true → CanAddr v2 = true →
  hard (Value_Kind v1) = true →
  UnsafeAddr v1 = UnsafeAddr v2 →
  deepValueEqual (S fuel) v1 v2 s =
    (Ret true,
     decDepth (Fprint (Sprintln ["  Same address, so equal"]) (indent (incDepth s)))).
Proof.
  intros Hv1 Hv2 Ht Ha1 Ha2 Hh Ha.
  cbn [deepValueEqual]. unfold activation, cycle_guard, kind_switch. rewrite Hv1, Hv2, Ha1, Ha2, Hh, Ht, Ha.
  rewrite bool_decide_eq_true_2 by done. cbn [negb orb andb].
  unfold canonicalize. rewrite N.ltb_irrefl, N.eqb_refl. reflexivity.
Qed.

(** C1 (as amended).  A slice or a map given as both arguments returns true
    after the header line and the pointer short-circuit line; an addressable
    array, slice, map or struct met on both sides at one address returns true
    with the line [Same address, so equal].  Each equation holds with fuel 1,
    which leaves no room for a recursive call. *)
Theorem identity_short_circuit (fuel : nat) :
  (∀ x : boxed,
     Value_Kind (ValueOf x) = reflect.Slice →
     DeepEqual (S fuel) (Some x) (Some x) =
       Returns true
         (Sprintln ["Comparing slices of type:"; Type_String (Value_Type (ValueOf x))] +:+
          Sprintln ["  Pointers equal, so equal"])) ∧
  (∀ x : boxed,
     Value_Kind (ValueOf x) = reflect.Map →
     DeepEqual (S fuel) (Some x) (Some x) =
       Returns true
         (Sprintln ["Comparing map of type:"; Type_String (Value_Type (ValueOf x))] +:+
          Sprintln ["  Same pointer, so equal"])) ∧
  (∀ (v1 v2 : Value) (s : deepEqualState),
     IsValid v1 = true → IsValid v2 = true →
     Value_Type v1 = Value_Type v2 →
     CanAddr v1 = true → CanAddr v2 = true →
     hard (Value_Kind v1) = true →
     UnsafeAddr v1 = UnsafeAddr v2 →
     ∃ s', deepValueEqual (S fuel) v1 v2 s = (Ret true, s') ∧
           visited s' = visited s ∧ depth s' = depth s ∧
           w s' = w (indent (incDepth s)) +:+ Sprintln ["  Same address, so equal"]).
Proof.
  split; [|split].
  - intros x Hk. rewrite DeepEqual_unfold by done.
    cbn [deepValueEqual]. unfold activation, cycle_guard, kind_switch.
    rewrite !ValueOf_IsValid, !ValueOf_CanAddr, Hk. cbn [negb orb andb].
    rewrite bool_decide_eq_true_2 by done. cbn [negb].
    unfold bind at 1. cbn [modify]. unfold defer.
    rewrite eqb_reflx, Nat.eqb_refl, N.eqb_refl. cbn [negb]. run_top.
    f_equal.
  - intros x Hk. rewrite DeepEqual_unfold by done.
    cbn [deepValueEqual]. unfold activation, cycle_guard, kind_switch.
    rewrite !ValueOf_IsValid, !ValueOf_CanAddr, Hk. cbn [negb orb andb].
    rewrite bool_decide_eq_true_2 by done. cbn [negb].
    unfold bind at 1. cbn [modify]. unfold defer.
    rewrite eqb_reflx, Nat.eqb_refl, N.eqb_refl. cbn [negb]. run_top.
    f_equal.
  - intros v1 v2 s Hv1 Hv2 Ht Ha1 Ha2 Hh Ha. eexists. split.
    + by apply deepValueEqual_same_address.
    + cbn [decDepth Fprint visited depth w].
      rewrite visited_indent, depth_indent. cbn [incDepth visited depth].
      split; [done|]. split; [lia|done].
Qed.
End Identity.

(** C1 fails as stated: a record given as both arguments is not addressable,
    so the comparator descends into its fields, and a non-nil func field
    makes the record unequal to itself. *)
Lemma identity_counterexample :
  GoHeap.run GoHeap.empty_heap 2
    (Some Samples.record_with_func) (Some Samples.record_with_func)
  = Returns false
      ("Comparing structs of type: main.T" +:+ nl +:+
       "  F:   Not both nil functions, so not equal" +:+ nl).
Proof. vm_compute. reflexivity. Qed.

Lemma identity_short_circuit_witness :
  GoHeap.run Samples.identity_heap 1 (Some Samples.a_map) (Some Samples.a_map)
  = Returns true
      ("Comparing map of type: map[string]int" +:+ nl +:+
       "  Same pointer, so equal" +:+ nl)
  ∧ ∃ s', deepValueEqual (H := GoHeap.GoReflect Samples.identity_heap (λ _, "..."))
            1 (GoHeap.Val Samples.a_value (Some 4096%N) false)
              (GoHeap.Val Samples.a_value (Some 4096%N) false)
            (incDepth initial_state) = (Ret true, s')
          ∧ w s' = "    Same address, so equal" +:+ nl.
Proof.
  pose proof (GoReflect_laws Samples.identity_heap (λ _, "...")) as HL.
  destruct (identity_short_circuit
              (H := GoHeap.GoReflect Samples.identity_heap (λ _, "...")) 0)
    as (_ & Hmap & Haddr).
  split.
  - apply Hmap. reflexivity.
  - destruct (Haddr (GoHeap.Val Samples.a_value (Some 4096%N) false)
                    (GoHeap.Val Samples.a_value (Some 4096%N) false)
                    (incDepth initial_state))
      as (s' & Hrun & _ & _ & Hw); try reflexivity.
    exists s'. split; [exact Hrun | exact Hw].
Defined.

(** ** Values reached through unexported fields *)

(** C2.  Comparing [U{1}] with itself, where [type U struct { a int }]: the
    field is reached with the read-only flag set, the scalar fallback calls
    [Interface()] on it, and the call panics.  No verdict is produced,
    however deep the recursion is allowed to go. *)
Theorem DeepEqual_panics_on_unexported_field (fuel : nat) :
  GoHeap.run GoHeap.empty_heap (S (S fuel))
    (Some Samples.unexported_int) (Some Samples.unexported_int) = Panics.
Proof. reflexivity. Qed.

(** C4.  On [Account{7, "x"}] against itself the standard library's
    algorithm answers true, and the source panics at the unexported field
    [secret] after having compared [ID]. *)
Theorem DeepEqual_differs_from_standard_library (fuel : nat) :
  GoHeap.run_std GoHeap.empty_heap (S (S fuel))
    (Some Samples.account) (Some Samples.account) = Ret true
  ∧ GoHeap.run GoHeap.empty_heap (S (S fuel))
      (Some Samples.account) (Some Samples.account) = Panics.
Proof. split; reflexivity. Qed.

(** ** Maps with keys that are not equal to themselves *)

(** C10.  With [m1 = {NaN: 0, 1: 0}] and [m2 = {1: 0, 2: 0}]: looking the NaN
    key of [m1] up fails in both maps, two invalid values compare equal, and
    [DeepEqual(m1, m2)] is true; the key 2 of [m2] is missing from [m1], and
    [DeepEqual(m2, m1)] is false. *)
Theorem DeepEqual_not_symmetric :
  GoHeap.run Samples.nan_heap 2 (Some Samples.nan_map) (Some Samples.plain_map)
  = Returns true
      ("Comparing map of type: map[float64]int" +:+ nl +:+
       "NaN: Something is not valid: <invalid reflect.Value> <invalid reflect.Value>" +:+ nl +:+
       "...: 0 == 0" +:+ nl)
  ∧ GoHeap.run Samples.nan_heap 2 (Some Samples.plain_map) (Some Samples.nan_map)
  = Returns false
      ("Comparing map of type: map[float64]int" +:+ nl +:+
       "...: 0 == 0" +:+ nl +:+
       "...: Something is not valid: 0 <invalid reflect.Value>" +:+ nl).
Proof. split; vm_compute; reflexivity. Qed.

(** ** What every call does to the state

    A relation between the state before and the state after that is
    reflexive, transitive and respected by the primitive updates is respected
    by every call of the comparator, whatever its result. *)

Section Steps.
Context `{Reflect Value boxed}.
Variable R : deepEqualState → deepEqualState → Prop.
Hypothesis R_refl : ∀ s, R s s.
Hypothesis R_trans : ∀ s1 s2 s3, R s1 s2 → R s2 s3 → R s1 s3.
Hypothesis R_incDepth : ∀ s, R s (incDepth s).
Hypothesis R_decDepth : ∀ s, R s (decDepth s).
Hypothesis R_set_sub : ∀ b s, R s (set_sub b s).
Hypothesis R_Fprint : ∀ txt s, R s (Fprint txt s).
Hypothesis R_visit : ∀ (x y : uintptr) t s,
  (x < y)%N →
  R s (State (<[Visit x y t := true]> (visited s)) (depth s) (sub s) (w s)).

Lemma steps_ret {A} (a : A) : steps R (ret a).
Proof. intros s. apply R_refl. Qed.

Lemma steps_panic {A} : steps R (@panic A).
Proof. intros s. apply R_refl. Qed.

Lemma steps_diverge {A} : steps R (@diverge A).
Proof. intros s. apply R_refl. Qed.

Lemma steps_bind {A B} (m : M A) (k : A → M B) :
  steps R m → (∀ a, steps R (k a)) → steps R (bind m k).
Proof.
  intros Hm Hk s. unfold bind. specialize (Hm s).
  destruct (m s) as [[a| |] s']; cbn [snd] in *; [|done..].
  eapply R_trans; [exact Hm | apply Hk].
Qed.

Lemma steps_defer {A} (body : M A) : steps R body → steps R (defer decDepth body).
Proof.
  intros Hb s. unfold defer. specialize (Hb s).
  destruct (body s) as [r s']; cbn [snd] in *.
  eapply R_trans; [exact Hb | apply R_decDepth].
Qed.

Lemma R_indent s : R s (indent s).
Proof.
  unfold indent. destruct (sub s); [apply R_set_sub|].
  destruct (0 <? depth s)%Z; [apply R_Fprint | apply R_refl].
Qed.

Lemma steps_println vals : steps R (println vals).
Proof.
  intros s. cbn. eapply R_trans; [apply R_indent | apply R_Fprint].
Qed.

Lemma steps_printf txt : steps R (printf txt).
Proof.
  intros s. cbn. eapply R_trans; [apply R_indent | apply R_Fprint].
Qed.

Lemma steps_Interface_M v : steps R (Interface_M v).
Proof.
  unfold Interface_M. destruct (Interface v); [apply steps_ret | apply steps_panic].
Qed.

Lemma steps_forall_M {A} (body : A → M bool) (xs : list A) :
  (∀ x, steps R (body x)) → steps R (forall_M body xs).
Proof.
  intros Hb. induction xs as [|x xs IH]; cbn [forall_M]; [apply steps_ret|].
  apply steps_bind; [apply Hb|]. intros [|]; [exact IH | apply steps_ret].
Qed.

Ltac steps_auto :=
  repeat first
    [ apply steps_ret | apply steps_println | apply steps_printf
    | apply steps_Interface_M | apply steps_panic
    | progress auto
    | intros s; apply R_set_sub
    | apply steps_forall_M; intros ?
    | apply steps_bind; [|intros ?]
    | match goal with |- steps R (if ?c then _ else _) => destruct c end ].

Lemma steps_kind_switch (rec : Value → Value → M bool) (v1 v2 : Value) :
  (∀ x y, steps R (rec x y)) → steps R (kind_switch rec v1 v2).
Proof.
  intros Hrec. unfold kind_switch. destruct (Value_Kind v1); steps_auto.
Qed.

Lemma canonicalize_le (x y : uintptr) :
  ((canonicalize x y).1 ≤ (canonicalize x y).2)%N.
Proof. unfold canonicalize. destruct (N.ltb_spec y x); cbn; lia. Qed.

Lemma steps_cycle_guard (v1 v2 : Value) (rest : M bool) :
  steps R rest → steps R (cycle_guard v1 v2 rest).
Proof.
  intros Hrest. unfold cycle_guard.
  destruct (CanAddr v1 && CanAddr v2 && hard (Value_Kind v1)); [|done].
  pose proof (canonicalize_le (UnsafeAddr v1) (UnsafeAddr v2)) as Hle.
  destruct (canonicalize _ _) as [x y]; cbn [fst snd] in Hle.
  destruct (x =? y)%N eqn:Heq; [steps_auto|].
  apply N.eqb_neq in Heq.
  apply steps_bind; [intros s; apply R_refl|]. intros [|]; [steps_auto|].
  apply steps_bind; [|done]. intros s. cbn. apply R_visit. lia.
Qed.

Lemma steps_activation (rec : Value → Value → M bool) (v1 v2 : Value) :
  (∀ x y, steps R (rec x y)) → steps R (activation rec v1 v2).
Proof.
  intros Hrec. unfold activation.
  apply steps_bind; [intros s; apply R_incDepth|]. intros _.
  apply steps_defer.
  destruct (negb (IsValid v1) || negb (IsValid v2)); [steps_auto|].
  destruct (negb (bool_decide (Value_Type v1 = Value_Type v2))); [steps_auto|].
  by apply steps_cycle_guard, steps_kind_switch.
Qed.

Lemma deepValueEqual_steps fuel (v1 v2 : Value) :
  steps R (deepValueEqual fuel v1 v2).
Proof.
  revert v1 v2. induction fuel as [|fuel IH]; intros v1 v2;
    [apply steps_diverge | by apply steps_activation].
Qed.
End Steps.

(** ** The visited set *)

Section Visited.
Context `{Reflect Value boxed}.

Lemma canonicalize_sym (x y : uintptr) : canonicalize x y = canonicalize y x.
Proof.
  unfold canonicalize.
  destruct (N.ltb_spec y x), (N.ltb_spec x y); f_equal; lia.
Qed.

Lemma canonical_insert (m : gmap visit bool) (x y : uintptr) (t : rtype) :
  (x < y)%N → canonical m → canonical (<[Visit x y t := true]> m).
Proof.
  intros Hxy Hm k b. rewrite lookup_insert. case_decide as Hk.
  - subst k. by intros _.
  - apply Hm.
Qed.

Lemma deepValueEqual_visited_step fuel (v1 v2 : Value) (s : deepEqualState) :
  visited_step s (deepValueEqual fuel v1 v2 s).2.
Proof.
  apply (deepValueEqual_steps visited_step); unfold visited_step; try done.
  - intros s1 s2 s3 [Hd1 Hc1] [Hd2 Hc2]. split; [set_solver | auto].
  - intros x y t s0 Hxy. cbn [visited]. split.
    + rewrite dom_insert_L. set_solver.
    + by apply canonical_insert.
Qed.

(** C9.  Whatever a call of the comparator does and however it ends, the
    visited set keeps all the keys it had and, if its entries had the smaller
    address first, they still all have; the two addresses of a pair give the
    same ordered pair in either argument order. *)
Theorem visited_canonical_and_growing fuel (v1 v2 : Value) (s : deepEqualState) :
  canonical (visited s) →
  canonical (visited (deepValueEqual fuel v1 v2 s).2)
  ∧ dom (visited s) ⊆ dom (visited (deepValueEqual fuel v1 v2 s).2)
  ∧ (∀ x y : uintptr, canonicalize x y = canonicalize y x
                       ∧ ((canonicalize x y).1 ≤ (canonicalize x y).2)%N).
Proof.
  intros Hc. destruct (deepValueEqual_visited_step fuel v1 v2 s) as [Hd Hc'].
  split; [auto|]. split; [done|].
  intros x y. split; [apply canonicalize_sym | apply canonicalize_le].
Qed.
End Visited.

Lemma canonical_empty : canonical ∅.
Proof. intros k b. by rewrite lookup_empty. Qed.

Lemma visited_canonical_and_growing_witness :
  canonical
    (visited (deepValueEqual (H := GoHeap.GoReflect Samples.identity_heap (λ _, "..."))
                3 (GoHeap.Val Samples.another_pointer None false)
                  (GoHeap.Val Samples.a_pointer None false) initial_state).2)
  ∧ visited (deepValueEqual (H := GoHeap.GoReflect Samples.identity_heap (λ _, "..."))
                3 (GoHeap.Val Samples.another_pointer None false)
                  (GoHeap.Val Samples.a_pointer None false) initial_state).2
    = {[ Visit 4096%N 4104%N "main.A" := true ]}.
Proof.
  split.
  - apply (visited_canonical_and_growing
             (H := GoHeap.GoReflect Samples.identity_heap (λ _, "..."))).
    apply canonical_empty.
  - vm_compute. reflexivity.
Defined.

(** ** The trace *)

Section Trace.
Context `{Reflect Value boxed} `{!ReflectLaws}.

Lemma deepValueEqual_trace_step fuel (v1 v2 : Value) :
  steps trace_step (deepValueEqual fuel v1 v2).
Proof.
  apply deepValueEqual_steps; unfold trace_step; try done.
  - intros s1 s2 s3. lia.
  - intros txt s. cbn [Fprint w]. rewrite length_append. lia.
Qed.

Lemma printf_then_writes (txt : string) (rest : M bool) (s : deepEqualState) :
  (1 ≤ String.length txt)%nat →
  steps trace_step rest →
  (String.length (w s) < String.length (w ((printf txt;; rest) s).2))%nat.
Proof.
  intros Htxt Hrest. unfold bind, printf, modify.
  specialize (Hrest (Fprint txt (indent s))). unfold trace_step in Hrest.
  cbn [Fprint w] in Hrest. rewrite length_append in Hrest.
  pose proof (length_indent s). lia.
Qed.

Lemma println_then_writes (vals : list string) (rest : M bool) (s : deepEqualState) :
  steps trace_step rest →
  (String.length (w s) < String.length (w ((println vals;; rest) s).2))%nat.
Proof. apply (printf_then_writes (Sprintln vals)), length_Sprintln. Qed.

Lemma steps_trace_ret (b : bool) : steps trace_step (ret b).
Proof. intros s. unfold trace_step. done. Qed.

Lemma steps_trace_forall_M {A} (body : A → M bool) (xs : list A) :
  (∀ x, steps trace_step (body x)) → steps trace_step (forall_M body xs).
Proof.
  apply steps_forall_M; unfold trace_step; [done | intros ???; lia].
Qed.

Lemma steps_trace_bind {A} (m : M A) (k : A → M bool) :
  steps trace_step m → (∀ a, steps trace_step (k a)) → steps trace_step (bind m k).
Proof. apply steps_bind. unfold trace_step. intros ???; lia. Qed.

Lemma steps_trace_write (txt : string) : steps trace_step (printf txt).
Proof.
  intros s. unfold trace_step. cbn. rewrite length_append.
  pose proof (length_indent s). lia.
Qed.

Lemma steps_trace_set_sub (b : bool) : steps trace_step (modify (set_sub b)).
Proof. intros s. unfold trace_step. done. Qed.

Lemma steps_trace_println (vals : list string) : steps trace_step (println vals).
Proof. apply (steps_trace_write (Sprintln vals)). Qed.

Lemma steps_trace_Interface_M (v : Value) : steps trace_step (Interface_M v).
Proof.
  unfold Interface_M. destruct (Interface v); intros s; unfold trace_step; cbn; lia.
Qed.

Ltac trace_steps :=
  repeat first
    [ apply steps_trace_ret | apply steps_trace_println | apply steps_trace_write
    | apply steps_trace_set_sub | apply steps_trace_Interface_M
    | progress auto
    | apply steps_trace_forall_M; intros ?
    | apply steps_trace_bind; [|intros ?]
    | match goal with |- steps _ (if ?c then _ else _) => destruct c end ].

(** Each branch of the switch writes before it does anything else, the
    scalar fallback included once its calls of [Interface()] have returned. *)
Lemma kind_switch_writes (rec : Value → Value → M bool) (v1 v2 : Value) s :
  (∀ x y, steps trace_step (rec x y)) →
  is_Some (Interface v1) → is_Some (Interface v2) →
  (String.length (w s) < String.length (w (kind_switch rec v1 v2 s).2))%nat.
Proof.
  intros Hrec [x1 Hx1] [x2 Hx2]. unfold kind_switch.
  assert (∀ a b c, (1 ≤ String.length (a +:+ b +:+ c +:+ nl))%nat) as Hnl.
  { intros a b c. rewrite !length_append. cbn. lia. }
  destruct (Value_Kind v1);
    first
      [ by (apply println_then_writes; trace_steps)
      | by (destruct (IsNil v1 && IsNil v2); apply println_then_writes; trace_steps)
      | unfold Interface_M; rewrite Hx1, Hx2, !bind_ret_l;
        destruct (reflect_DeepEqual x1 x2); rewrite !bind_ret_l;
        (apply printf_then_writes; [apply Hnl | trace_steps]) ].
Qed.

(** C7.  When the two inputs are non-nil and of one static type the
    comparator runs, and the trace it has written is not empty, however the
    run ends; in particular the trace the entry point returns is not empty. *)
Theorem DeepEqual_trace_nonempty (fuel : nat) (x1 x2 : boxed) :
  Value_Type (ValueOf x1) = Value_Type (ValueOf x2) →
  w (deepValueEqual (S fuel) (ValueOf x1) (ValueOf x2) initial_state).2 ≠ EmptyString
  ∧ ∀ b trace, DeepEqual (S fuel) (Some x1) (Some x2) = Returns b trace →
               trace ≠ EmptyString.
Proof.
  intros Ht.
  assert (w (deepValueEqual (S fuel) (ValueOf x1) (ValueOf x2) initial_state).2
          ≠ EmptyString) as Hw.
  { cbn [deepValueEqual]. unfold activation, cycle_guard.
    rewrite !ValueOf_IsValid, !ValueOf_CanAddr. cbn [negb orb andb].
    rewrite bool_decide_eq_true_2 by done. cbn [negb].
    unfold bind at 1. cbn [modify]. unfold defer.
    pose proof (kind_switch_writes (deepValueEqual fuel) (ValueOf x1) (ValueOf x2)
                  (incDepth initial_state)) as Hlt.
    destruct (kind_switch _ _ _ _) as [r s']. cbn [snd decDepth w] in *.
    intros Hempty. rewrite Hempty in Hlt. cbn in Hlt.
    assert (0 < 0)%nat; [|lia].
    apply Hlt; [apply deepValueEqual_trace_step | rewrite ValueOf_Interface; eauto..]. }
  split; [exact Hw|].
  intros b trace. rewrite DeepEqual_unfold by done.
  destruct (deepValueEqual _ _ _ _) as [[b'| |] s']; [|done..].
  intros [= <- <-]. exact Hw.
Qed.
End Trace.

Lemma DeepEqual_trace_nonempty_witness :
  GoHeap.run GoHeap.empty_heap 1 (Some (GoHeap.int 7)) (Some (GoHeap.int 7))
  = Returns true ("7 == 7" +:+ nl)
  ∧ "7 == 7" +:+ nl ≠ EmptyString.
Proof.
  split; [reflexivity|].
  pose proof (GoReflect_laws GoHeap.empty_heap (λ _, "...")) as HL.
  refine (proj2 (DeepEqual_trace_nonempty
                   (H := GoHeap.GoReflect GoHeap.empty_heap (λ _, "..."))
                   0 (GoHeap.int 7) (GoHeap.int 7) _) true _ _); reflexivity.
Defined.

(** ** Maps and arrays *)

Section Containers.
Context `{Reflect Value boxed} `{!ReflectLaws}.

Lemma scalar_kind_not_hard k : scalar_kind k = true → hard k = false.
Proof. by destruct k. Qed.

(** A call on two scalars returns the library's verdict. *)
Lemma deepValueEqual_scalars fuel (c1 c2 : Value) (b : bool) (s : deepEqualState) :
  scalars_with_verdict c1 c2 b →
  ∃ s', deepValueEqual (S fuel) c1 c2 s = (Ret b, s').
Proof.
  intros (Hv1 & Hv2 & Ht & Hk & y1 & y2 & Hy1 & Hy2 & Hb).
  cbn [deepValueEqual]. unfold activation, cycle_guard, kind_switch.
  rewrite Hv1, Hv2, Ht, (scalar_kind_not_hard _ Hk), !andb_false_r.
  rewrite bool_decide_eq_true_2 by done. cbn [negb orb].
  unfold Interface_M. rewrite Hy1, Hy2.
  unfold bind at 1. cbn [modify]. unfold defer.
  destruct (Value_Kind c1); try discriminate Hk;
    rewrite !bind_ret_l, Hb; destruct b; rewrite !bind_ret_l;
    unfold bind, printf, modify, ret; eauto.
Qed.

(** A loop whose every body call returns true runs to its end. *)
Lemma forall_M_all_true {A} (body : A → M bool) (xs : list A) (s : deepEqualState) :
  (∀ x s0, x ∈ xs → ∃ s', body x s0 = (Ret true, s')) →
  ∃ s', forall_M body xs s = (Ret true, s').
Proof.
  revert s. induction xs as [|x xs IH]; intros s Hb; cbn [forall_M].
  - by eexists.
  - unfold bind. destruct (Hb x s) as [s1 ->]; [by left|].
    apply IH. intros y s0 Hy. apply Hb. by right.
Qed.

(** A loop whose body calls all return stops with false as soon as one of
    them returns false. *)
Lemma forall_M_some_false {A} (body : A → M bool) (f : A → bool)
    (xs : list A) (s : deepEqualState) :
  (∀ x s0, x ∈ xs → ∃ s', body x s0 = (Ret (f x), s')) →
  (∃ x, x ∈ xs ∧ f x = false) →
  ∃ s', forall_M body xs s = (Ret false, s').
Proof.
  revert s. induction xs as [|x xs IH]; intros s Hb (z & Hz & Hfz).
  - by apply elem_of_nil in Hz.
  - cbn [forall_M]. unfold bind. destruct (Hb x s) as [s1 ->]; [by left|].
    destruct (f x) eqn:Hfx.
    + apply IH; [intros y s0 Hy; apply Hb; by right|].
      apply elem_of_cons in Hz as [-> | Hz]; [congruence | eauto].
    + by eexists.
Qed.

(** A loop whose body calls all return true, each from a state in [P] and
    leaving one in [P], runs to its end. *)
Lemma forall_M_true_within {A} (P : deepEqualState → Prop)
    (body : A → M bool) (xs : list A) (s : deepEqualState) :
  P s →
  (∀ x s0, x ∈ xs → P s0 → ∃ s', body x s0 = (Ret true, s') ∧ P s') →
  ∃ s', forall_M body xs s = (Ret true, s').
Proof.
  revert s. induction xs as [|x xs IH]; intros s Hs Hb; cbn [forall_M].
  - by eexists.
  - unfold bind. destruct (Hb x s) as (s1 & -> & Hs1); [by left | done |].
    apply IH; [done|]. intros y s0 Hy. apply Hb. by right.
Qed.

(** A loop stops with false at the first body call that returns false, when
    the calls before it return. *)
Lemma forall_M_first_false {A} (P : deepEqualState → Prop)
    (body : A → M bool) (pre : list A) (x : A) (post : list A)
    (s : deepEqualState) :
  P s →
  (∀ y s0, y ∈ pre → P s0 → ∃ b s', body y s0 = (Ret b, s') ∧ P s') →
  (∀ s0, P s0 → ∃ s', body x s0 = (Ret false, s')) →
  ∃ s', forall_M body (pre ++ x :: post)%list s = (Ret false, s').
Proof.
  revert s. induction pre as [|y pre IH]; intros s Hs Hpre Hx; cbn [app forall_M].
  - unfold bind. destruct (Hx s Hs) as [s1 ->]. by eexists.
  - unfold bind. destruct (Hpre y s) as (b & s1 & -> & Hs1); [by left | done |].
    destruct b; [|by eexists].
    apply IH; [done | | done]. intros z s0 Hz. apply Hpre. by right.
Qed.

Lemma seq_split_at (n i : nat) :
  (i < n)%nat → seq 0 n = (seq 0 i ++ i :: seq (S i) (n - S i))%list.
Proof.
  intros Hi. replace n with (i + S (n - S i))%nat at 1 by lia.
  rewrite seq_app. reflexivity.
Qed.

(** C6 (as amended).  Two maps of one type, both nil or both not, with the
    same number of entries, such that under every key of the first map the
    comparison of the two maps' values returns true: the verdict is true, in
    whatever order [MapKeys] lists the keys.  Two arrays of one type such
    that at some index the comparison of the two elements returns false and
    at every earlier index it returns: the verdict is false.

    The comparisons of the sub-values are taken in the states the loop can
    be in: [V] is any set of visited sets that holds the empty one and that
    the comparisons which return true (for arrays: the ones before the
    deciding index) do not lead out of.  With [V] everything, the premise
    is that they return so from every state. *)
Theorem maps_unordered_arrays_ordered
    (V : gmap visit bool → Prop) (fuel : nat) (x1 x2 : boxed) :
  Value_Type (ValueOf x1) = Value_Type (ValueOf x2) →
  V ∅ →
  (Value_Kind (ValueOf x1) = reflect.Map →
   IsNil (ValueOf x1) = IsNil (ValueOf x2) →
   Len (ValueOf x1) = Len (ValueOf x2) →
   (∀ k, k ∈ MapKeys (ValueOf x1) →
         finds V fuel (MapIndex (ValueOf x1) k) (MapIndex (ValueOf x2) k) true
         ∧ keeps V fuel (MapIndex (ValueOf x1) k) (MapIndex (ValueOf x2) k)) →
   ∃ trace, DeepEqual (S fuel) (Some x1) (Some x2) = Returns true trace)
  ∧
  (Value_Kind (ValueOf x1) = reflect.Array →
   ∀ i, (i < Len (ValueOf x1))%nat →
     (∀ j, (j < i)%nat →
           (∃ b, finds V fuel (Index (ValueOf x1) j) (Index (ValueOf x2) j) b)
           ∧ keeps V fuel (Index (ValueOf x1) j) (Index (ValueOf x2) j)) →
     finds V fuel (Index (ValueOf x1) i) (Index (ValueOf x2) i) false →
     ∃ trace, DeepEqual (S fuel) (Some x1) (Some x2) = Returns false trace).
Proof.
  intros Ht Hempty. split.
  - intros Hk Hnil Hlen Hvals. rewrite DeepEqual_unfold by done.
    cbn [deepValueEqual]. unfold activation at 1. unfold cycle_guard, kind_switch.
    rewrite !ValueOf_IsValid, !ValueOf_CanAddr, Hk, Hnil, Hlen.
    cbn [negb orb andb]. rewrite bool_decide_eq_true_2 by done. cbn [negb].
    rewrite eqb_reflx, Nat.eqb_refl. cbn [negb].
    unfold bind at 1. cbn [modify]. unfold defer, bind at 1. rewrite println_run.
    destruct (Pointer (ValueOf x1) =? Pointer (ValueOf x2))%N.
    { unfold bind, println, modify, ret. eauto. }
    match goal with |- context [forall_M ?body ?xs ?s0] =>
      destruct (forall_M_true_within (λ s, V (visited s)) body xs s0) as [s' ->]
    end; [cbn [visited Fprint]; by rewrite visited_indent | | eauto].
    intros k s0 Hin Hs0. unfold bind, printf, modify.
    destruct (Hvals k Hin) as [Hfinds Hkeeps].
    match goal with |- context [deepValueEqual fuel ?c1 ?c2 ?s1] =>
      specialize (Hfinds s1); specialize (Hkeeps s1) end.
    cbn [set_sub visited Fprint] in Hfinds, Hkeeps.
    rewrite visited_indent in Hfinds, Hkeeps.
    destruct (Hfinds Hs0) as [s' Hrun]. rewrite Hrun in Hkeeps |- *.
    exists s'. split; [done | by apply Hkeeps].
  - intros Hk i Hi Hbefore Hfalse. rewrite DeepEqual_unfold by done.
    cbn [deepValueEqual]. unfold activation at 1. unfold cycle_guard, kind_switch.
    rewrite !ValueOf_IsValid, !ValueOf_CanAddr, Hk.
    cbn [negb orb andb]. rewrite bool_decide_eq_true_2 by done. cbn [negb].
    unfold bind at 1. cbn [modify]. unfold defer, bind at 1. rewrite println_run.
    rewrite (seq_split_at _ i Hi).
    match goal with |- context [forall_M ?body (?pre ++ ?x :: ?post)%list ?s0] =>
      destruct (forall_M_first_false (λ s, V (visited s)) body pre x post s0)
        as [s' ->]
    end; [cbn [visited Fprint]; by rewrite visited_indent | | | eauto].
    + intros j s0 Hin Hs0. apply elem_of_seq in Hin as [_ Hj].
      destruct (Hbefore j) as [[b Hfinds] Hkeeps]; [lia|].
      destruct (Hfinds s0 Hs0) as [s' Hrun]. specialize (Hkeeps s0 Hs0).
      rewrite Hrun in Hkeeps. by exists b, s'.
    + intros s0 Hs0. exact (Hfalse s0 Hs0).
Qed.
End Containers.

(** C6 fails as stated.  The arrays [{&x, &y}] and [{&y, &x}] hold the same
    two pointers in different order and are equal, since [x] and [y] hold
    equal values; two maps holding the same pair of a key and a non-nil func
    are unequal. *)
Lemma maps_unordered_arrays_ordered_counterexample :
  (Samples.pointers_xy ≡ₚ Samples.pointers_yx
   ∧ Samples.pointers_xy ≠ Samples.pointers_yx
   ∧ GoHeap.run Samples.pointer_heap 3
       (Some (GoHeap.TV "[2]*int" (GoHeap.DArray Samples.pointers_xy)))
       (Some (GoHeap.TV "[2]*int" (GoHeap.DArray Samples.pointers_yx)))
     = Returns true
         ("Comparing arrays of type: [2]*int" +:+ nl +:+
          "  Comparing pointers of type: *int" +:+ nl +:+
          "    1 == 1" +:+ nl +:+
          "  Comparing pointers of type: *int" +:+ nl +:+
          "    1 == 1" +:+ nl))
  ∧ (GoHeap.entries Samples.func_heap 4096%N = GoHeap.entries Samples.func_heap 8192%N
     ∧ GoHeap.run Samples.func_heap 2
         (Some Samples.func_map_1) (Some Samples.func_map_2)
       = Returns false
           ("Comparing map of type: map[string]func()" +:+ nl +:+
            GoHeap.quote +:+ "f" +:+ GoHeap.quote +:+
            ":   Not both nil functions, so not equal" +:+ nl)).
Proof.
  split; [split; [|split]|split].
  - apply Permutation_swap.
  - discriminate.
  - vm_compute. reflexivity.
  - reflexivity.
  - vm_compute. reflexivity.
Qed.

(** ** Termination through the cycle guard *)

Lemma filter_length_le {A} (f g : A → bool) (l : list A) :
  (∀ x, f x = true → g x = true) →
  (length (List.filter f l) ≤ length (List.filter g l))%nat.
Proof.
  intros Hfg. induction l as [|x l IH]; cbn; [lia|].
  destruct (f x) eqn:Hf.
  - rewrite (Hfg x Hf). cbn. lia.
  - destruct (g x); cbn; lia.
Qed.

Lemma filter_length_lt {A} (f g : A → bool) (l : list A) (a : A) :
  (∀ x, f x = true → g x = true) →
  a ∈ l → f a = false → g a = true →
  (length (List.filter f l) < length (List.filter g l))%nat.
Proof.
  intros Hfg Hin Hfa Hga. induction l as [|x l IH]; [by apply elem_of_nil in Hin|].
  apply elem_of_cons in Hin as [<- | Hin]; cbn.
  - rewrite Hfa, Hga. cbn. pose proof (filter_length_le f g l Hfg). lia.
  - specialize (IH Hin). destruct (f x) eqn:Hf.
    + rewrite (Hfg x Hf). cbn. lia.
    + destruct (g x); cbn; lia.
Qed.

Section CycleGuard.
Context `{Reflect Value boxed}.
Variable reach : list (Value * Value).

Lemma deepValueEqual_seen_step fuel (v1 v2 : Value) :
  steps seen_step (deepValueEqual fuel v1 v2).
Proof.
  apply deepValueEqual_steps; unfold seen_step; try done.
  - intros s1 s2 s3 H12 H23 k Hk. auto.
  - intros x y t s _ k Hk. cbn [visited]. rewrite lookup_insert.
    by case_decide.
Qed.

Lemma count_pending_mono (s s' : deepEqualState) :
  seen_step s s' → (count_pending s' reach ≤ count_pending s reach)%nat.
Proof.
  intros Hstep. apply filter_length_le. intros [x y]. unfold pending. cbn [fst snd].
  destruct (guarded x y); [|done]. cbn [andb].
  destruct (visited s !! guard_key x y) as [[|]|] eqn:E; cbn; try done.
  by rewrite (Hstep _ E).
Qed.

Lemma count_pending_visited (s s' : deepEqualState) :
  visited s' = visited s → count_pending s' reach = count_pending s reach.
Proof.
  intros Hv. unfold count_pending. f_equal. apply filter_ext.
  intros p. unfold pending. by rewrite Hv.
Qed.

Lemma count_pending_insert (s : deepEqualState) (v1 v2 : Value) :
  (v1, v2) ∈ reach →
  pending s (v1, v2) = true →
  (count_pending (State (<[guard_key v1 v2 := true]> (visited s)) (depth s) (sub s) (w s)) reach
   < count_pending s reach)%nat.
Proof.
  intros Hin Hp. apply (filter_length_lt _ _ _ (v1, v2)); [|done| |done].
  - intros [x y]. unfold pending. cbn [fst snd visited].
    destruct (guarded x y); [|done]. cbn [andb]. rewrite lookup_insert.
    case_decide; [done|]. done.
  - unfold pending in *. cbn [fst snd visited] in *.
    rewrite lookup_insert_eq. cbn. by rewrite andb_false_r.
Qed.

Lemma ok_ret_true s : ok reach (ret true) s.
Proof. by split. Qed.

Lemma ok_ret (b : bool) s : (identical reach → b = true) → ok reach (ret b) s.
Proof. intros Hb. split; [done|]. intros Hi. cbn. by rewrite Hb. Qed.

Lemma ok_println vals (m : M bool) s :
  ok reach m (Fprint (Sprintln vals) (indent s)) → ok reach (println vals;; m) s.
Proof. done. Qed.

Lemma ok_printf txt (m : M bool) s :
  ok reach m (Fprint txt (indent s)) → ok reach (printf txt;; m) s.
Proof. done. Qed.

Lemma count_pending_write txt s :
  count_pending (Fprint txt (indent s)) reach = count_pending s reach.
Proof. apply count_pending_visited. cbn. apply visited_indent. Qed.

Lemma forall_M_ok {A} (body : A → M bool) (xs : list A) (n : nat) s :
  (∀ x, steps seen_step (body x)) →
  (∀ x s0, x ∈ xs → (count_pending s0 reach < n)%nat → ok reach (body x) s0) →
  (count_pending s reach < n)%nat →
  ok reach (forall_M body xs) s.
Proof.
  intros Hmono. revert s. induction xs as [|x xs IH]; intros s Hbody Hn.
  - apply ok_ret_true.
  - cbn [forall_M]. unfold ok, bind.
    destruct (Hbody x s) as [Hne Hid]; [by left | done |].
    pose proof (Hmono x s) as Hstep.
    destruct (body x s) as [[[|]| |] s1]; cbn [fst snd] in *.
    + apply IH; [intros y s0 Hy; apply Hbody; by right|].
      apply count_pending_mono in Hstep. lia.
    + split; [done|]. intros Hi. by specialize (Hid Hi).
    + split; [done|]. intros Hi. by specialize (Hid Hi).
    + done.
Qed.

Lemma steps_seen_labelled (txt : string) (m : M bool) :
  steps seen_step m → steps seen_step (printf txt;; modify (set_sub true);; m).
Proof.
  intros Hm s. unfold bind, printf, modify. cbn [fst snd].
  intros k Hk. apply Hm. cbn. by rewrite visited_indent.
Qed.

Lemma ok_labelled (txt : string) (m : M bool) (n : nat) s :
  (∀ s0, (count_pending s0 reach < n)%nat → ok reach m s0) →
  (count_pending s reach < n)%nat →
  ok reach (printf txt;; modify (set_sub true);; m) s.
Proof.
  intros Hm Hn. apply ok_printf. unfold ok, bind, modify. apply Hm.
  erewrite count_pending_visited; [exact Hn|]. cbn. apply visited_indent.
Qed.

Lemma kind_switch_ok (rec : Value → Value → M bool) (v1 v2 : Value) (n : nat) s :
  IsValid v1 = true → IsValid v2 = true →
  Value_Type v1 = Value_Type v2 →
  (∀ x y, steps seen_step (rec x y)) →
  (∀ c1 c2 s0, (c1, c2) ∈ children v1 v2 →
               (count_pending s0 reach < n)%nat → ok reach (rec c1 c2) s0) →
  (identical reach → locally_equal v1 v2) →
  (count_pending s reach < n)%nat →
  ok reach (kind_switch rec v1 v2) s.
Proof.
  intros Hv1 Hv2 Ht Hmono Hrec Hloc Hn.
  unfold children in Hrec. unfold locally_equal in Hloc.
  rewrite Hv1, Hv2, Ht in *. rewrite bool_decide_eq_true_2 in * by done.
  cbn [negb orb] in *. unfold kind_switch.
  assert (∀ txt, (count_pending (Fprint txt (indent s)) reach < n)%nat) as Hn'.
  { intros txt. by rewrite count_pending_write. }
  destruct (Value_Kind v1);
    try (unfold ok, Interface_M, bind, printf, modify, ret, panic; split;
         [ destruct (Interface v1); [|done]; destruct (Interface v2); [|done];
           by destruct (reflect_DeepEqual _ _)
         | intros Hi; by destruct (Hloc Hi) as (_ & x1 & x2 & -> & -> & ->) ]).
  - (* Array *)
    apply ok_println, (forall_M_ok _ _ n); [done| |done].
    intros i s0 Hi. apply Hrec.
    by apply (list_elem_of_fmap_2 (λ i, (Index v1 i, Index v2 i))).
  - (* Func *)
    destruct (IsNil v1 && IsNil v2) eqn:Hnil; apply ok_println.
    + apply ok_ret_true.
    + apply ok_ret. intros Hi. destruct (Hloc Hi) as (_ & Hn1 & Hn2).
      by rewrite Hn1, Hn2 in Hnil.
  - (* Interface *)
    apply ok_println. destruct (IsNil v1 || IsNil v2) eqn:Hnil.
    + apply ok_println, ok_ret. intros Hi. destruct (Hloc Hi) as (_ & ->).
      apply eqb_reflx.
    + apply Hrec; [by left | done].
  - (* Map *)
    apply ok_println. destruct (eqb (IsNil v1) (IsNil v2)) eqn:Hnil; cbn [negb] in *.
    2:{ apply ok_println, ok_ret. intros Hi. destruct (Hloc Hi) as (_ & Heq & _).
        rewrite Heq, eqb_reflx in Hnil. done. }
    destruct (Len v1 =? Len v2)%nat eqn:Hlen; cbn [negb] in *.
    2:{ apply ok_println, ok_ret. intros Hi. destruct (Hloc Hi) as (_ & _ & Heq).
        rewrite Heq, Nat.eqb_refl in Hlen. done. }
    destruct (Pointer v1 =? Pointer v2)%N; [apply ok_println, ok_ret_true|].
    apply (forall_M_ok _ _ n); [| |done].
    + intros k. by apply steps_seen_labelled.
    + intros k s0 Hk Hs0. apply (ok_labelled _ _ n); [|done].
      intros s1. apply Hrec.
      by apply (list_elem_of_fmap_2 (λ k, (MapIndex v1 k, MapIndex v2 k))).
  - (* Ptr *)
    apply ok_println, Hrec; [by left | done].
  - (* Slice *)
    apply ok_println. destruct (eqb (IsNil v1) (IsNil v2)) eqn:Hnil; cbn [negb] in *.
    2:{ unfold ok, Interface_M, bind, printf, println, modify, ret, panic. split.
        - destruct (Interface v1); [|done]. by destruct (Interface v2).
        - intros Hi. destruct (Hloc Hi) as (_ & Heq & _).
          rewrite Heq, eqb_reflx in Hnil. done. }
    destruct (Len v1 =? Len v2)%nat eqn:Hlen; cbn [negb] in *.
    2:{ apply ok_println, ok_ret. intros Hi. destruct (Hloc Hi) as (_ & _ & Heq).
        rewrite Heq, Nat.eqb_refl in Hlen. done. }
    destruct (Pointer v1 =? Pointer v2)%N; [apply ok_println, ok_ret_true|].
    apply (forall_M_ok _ _ n); [done| |done].
    intros i s0 Hi. apply Hrec.
    by apply (list_elem_of_fmap_2 (λ i, (Index v1 i, Index v2 i))).
  - (* Struct *)
    apply ok_println, (forall_M_ok _ _ n); [| |done].
    + intros i. by apply steps_seen_labelled.
    + intros i s0 Hi Hs0. apply (ok_labelled _ _ n); [|done].
      intros s1. apply Hrec.
      by apply (list_elem_of_fmap_2 (λ i, (Field v1 i, Field v2 i))).
Qed.

Lemma ok_visited_get (v : visit) (k : bool → M bool) s :
  ok reach (k (default false (visited s !! v))) s → ok reach (seen <- visited_get v;; k seen) s.
Proof. done. Qed.

Lemma ok_visited_set (v : visit) (m : M bool) s :
  ok reach m (State (<[v := true]> (visited s)) (depth s) (sub s) (w s)) →
  ok reach (visited_set v;; m) s.
Proof. done. Qed.

Lemma ok_activation_shape (body : M bool) s :
  ok reach body (incDepth s) → ok reach (modify incDepth;; defer decDepth body) s.
Proof.
  unfold ok, bind, modify, defer. by destruct (body (incDepth s)).
Qed.

Lemma activation_ok (rec : Value → Value → M bool) (v1 v2 : Value) (n : nat) s :
  (v1, v2) ∈ reach →
  (∀ x y, steps seen_step (rec x y)) →
  (∀ c1 c2 s0, (c1, c2) ∈ children v1 v2 →
               (count_pending s0 reach < n)%nat → ok reach (rec c1 c2) s0) →
  ((count_pending s reach < n)%nat
   ∨ (guarded v1 v2 = true ∧ (count_pending s reach ≤ n)%nat)) →
  ok reach (activation rec v1 v2) s.
Proof.
  intros Hin Hmono Hrec Hcount. unfold activation. apply ok_activation_shape.
  assert (identical reach → locally_equal v1 v2) as Hloc by (intros Hi; by apply Hi).
  assert (count_pending (incDepth s) reach = count_pending s reach) as Hinc
    by (by apply count_pending_visited).
  rewrite <- Hinc in Hcount. revert Hcount. generalize (incDepth s). clear Hinc s.
  intros s Hcount.
  destruct (negb (IsValid v1) || negb (IsValid v2)) eqn:Hvalid.
  { apply ok_println, ok_ret. intros Hi. specialize (Hloc Hi).
    unfold locally_equal in Hloc. rewrite Hvalid in Hloc. rewrite Hloc.
    apply eqb_reflx. }
  apply orb_false_elim in Hvalid as [Hv1 Hv2].
  apply negb_false_iff in Hv1, Hv2.
  destruct (bool_decide (Value_Type v1 = Value_Type v2)) eqn:Htype; cbn [negb].
  2:{ apply ok_println, ok_ret. intros Hi. specialize (Hloc Hi).
      unfold locally_equal in Hloc. rewrite Hv1, Hv2 in Hloc. cbn in Hloc.
      destruct Hloc as [Ht _]. by rewrite bool_decide_eq_true_2 in Htype. }
  apply bool_decide_eq_true_1 in Htype.
  unfold cycle_guard. fold (guarded v1 v2).
  destruct (guarded v1 v2) eqn:Hg.
  2:{ destruct Hcount as [Hcount | [? _]]; [|done].
      by apply (kind_switch_ok _ _ _ n). }
  assert (guard_key v1 v2
          = Visit (canonicalize (UnsafeAddr v1) (UnsafeAddr v2)).1
                  (canonicalize (UnsafeAddr v1) (UnsafeAddr v2)).2
                  (Value_Type v1)) as Hkey by done.
  destruct (canonicalize (UnsafeAddr v1) (UnsafeAddr v2)) as [x y].
  cbn [fst snd] in Hkey.
  destruct (x =? y)%N; [apply ok_println, ok_ret_true|].
  rewrite <- Hkey. apply ok_visited_get.
  destruct (default false (visited s !! guard_key v1 v2)) eqn:Hseen;
    [apply ok_println, ok_ret_true|].
  apply ok_visited_set, (kind_switch_ok _ _ _ n); try done.
  pose proof (count_pending_insert s v1 v2 Hin) as Hlt.
  unfold pending in Hlt. cbn [fst snd] in Hlt. rewrite Hg, Hseen in Hlt.
  specialize (Hlt eq_refl). destruct Hcount as [? | [_ ?]]; lia.
Qed.

Variable rank : Value → Value → nat.
Variable bound : nat.
Hypothesis Hcycles : guarded_cycles reach rank bound.

Lemma guarded_level_0 : guarded_level reach bound 0.
Proof.
  intros [|fuel] s v1 v2 Hfuel Hin Hg Hn; [lia|]. cbn [deepValueEqual].
  apply (activation_ok _ _ _ 0); [done | apply deepValueEqual_seen_step | | by right].
  intros c1 c2 s0 _ Hs0. lia.
Qed.

Lemma ranked_level_from_guarded (n : nat) :
  guarded_level reach bound n → ∀ r, ranked_level reach rank bound n r.
Proof.
  intros Hguarded r. induction r as [|r IH];
    intros [|fuel] s v1 v2 Hfuel Hin Hr Hn; try lia; cbn [deepValueEqual].
  all: apply (activation_ok _ _ _ (S n));
    [done | apply deepValueEqual_seen_step | | left; lia].
  all: intros c1 c2 s0 Hc Hs0;
    destruct (Hcycles v1 v2 Hin) as [_ Hchildren];
    destruct (Hchildren c1 c2 Hc) as [Hcin [Hg | Hlt]].
  - apply Hguarded; [lia | done | done | lia].
  - lia.
  - apply Hguarded; [lia | done | done | lia].
  - apply IH; [lia | done | lia | lia].
Qed.

Lemma guarded_level_S (n : nat) :
  ranked_level reach rank bound n bound → guarded_level reach bound (S n).
Proof.
  intros Hranked [|fuel] s v1 v2 Hfuel Hin Hg Hn; [lia|]. cbn [deepValueEqual].
  apply (activation_ok _ _ _ (S n));
    [done | apply deepValueEqual_seen_step | | by right].
  intros c1 c2 s0 Hc Hs0.
  destruct (Hcycles v1 v2 Hin) as [_ Hchildren].
  destruct (Hchildren c1 c2 Hc) as [Hcin _].
  apply Hranked; [lia | done | by apply Hcycles | lia].
Qed.

Lemma deepValueEqual_levels (n : nat) :
  guarded_level reach bound n ∧ ∀ r, ranked_level reach rank bound n r.
Proof.
  induction n as [|n [_ IHr]].
  - split; [apply guarded_level_0 | apply ranked_level_from_guarded, guarded_level_0].
  - assert (guarded_level reach bound (S n)) as Hg by apply guarded_level_S, IHr.
    split; [exact Hg | by apply ranked_level_from_guarded].
Qed.

Lemma count_pending_le_length s : (count_pending s reach ≤ length reach)%nat.
Proof.
  unfold count_pending. pose proof (List.filter_length (pending s) reach). lia.
Qed.

Lemma deepValueEqual_within_reach (fuel : nat) (v1 v2 : Value) s :
  (enough_fuel reach bound ≤ fuel)%nat → (v1, v2) ∈ reach →
  ok reach (deepValueEqual fuel v1 v2) s.
Proof.
  intros Hfuel Hin.
  destruct (deepValueEqual_levels (length reach)) as [_ Hr].
  apply (Hr bound); [exact Hfuel | done | by apply Hcycles | apply count_pending_le_length].
Qed.
End CycleGuard.

Section CyclicInputs.
Context `{Reflect Value boxed} `{!ReflectLaws}.

(** X20.  When every cycle the comparison can run into passes through a pair
    the cycle guard covers (two addressable values of kind array, slice, map
    or struct, such as two records reached through pointers), the
    comparison ends within [enough_fuel] levels of recursion, by returning
    or by a panic: a pair met again is found in the visited set and taken to
    be equal.  If moreover every pair it can reach is locally equal (which
    includes that [Interface()] returns on the scalars), the verdict is
    true. *)
Theorem cyclic_records_terminate
    (reach : list (Value * Value)) (rank : Value → Value → nat) (bound : nat)
    (fuel : nat) (x1 x2 : boxed) :
  guarded_cycles reach rank bound →
  (ValueOf x1, ValueOf x2) ∈ reach →
  (enough_fuel reach bound ≤ fuel)%nat →
  DeepEqual fuel (Some x1) (Some x2) ≠ Diverges
  ∧ (identical reach →
     ∃ trace, DeepEqual fuel (Some x1) (Some x2) = Returns true trace).
Proof.
  intros Hcycles Hin Hfuel.
  pose proof (deepValueEqual_within_reach reach rank bound Hcycles fuel
                (ValueOf x1) (ValueOf x2) initial_state Hfuel Hin) as [Hne Htrue].
  unfold DeepEqual.
  destruct (bool_decide (Value_Type (ValueOf x1) = Value_Type (ValueOf x2))) eqn:Ht;
    cbn [negb].
  - destruct (deepValueEqual fuel (ValueOf x1) (ValueOf x2) initial_state)
      as [[b| |] s]; cbn [fst] in *; [| |done].
    + split; [done|]. intros Hid. specialize (Htrue Hid). injection Htrue as ->.
      by eexists.
    + split; [done|]. intros Hid. by specialize (Htrue Hid).
  - split; [done|]. intros Hid. specialize (Hid _ _ Hin).
    unfold locally_equal in Hid. rewrite !ValueOf_IsValid in Hid. cbn in Hid.
    destruct Hid as [Heq _]. by rewrite bool_decide_eq_true_2 in Ht.
Qed.
End CyclicInputs.

Lemma ring_cycles :
  guarded_cycles (H := GoHeap.GoReflect Samples.ring_heap (λ _, "..."))
    Samples.ring_reach Samples.ring_rank 1.
Proof.
  intros v1 v2 Hin.
  repeat (apply elem_of_cons in Hin as [Hin | Hin]; [injection Hin as -> ->|]);
    [..|by apply elem_of_nil in Hin].
  all: split; [vm_compute; lia|].
  all: intros c1 c2 Hc; vm_compute in Hc.
  all: repeat (apply elem_of_cons in Hc as [Hc | Hc]; [injection Hc as -> ->|]);
    try (by apply elem_of_nil in Hc).
  all: split; [unfold Samples.ring_reach; cbn; repeat constructor|].
  all: first [left; reflexivity | right; vm_compute; lia].
Qed.

Lemma ring_identical :
  identical (H := GoHeap.GoReflect Samples.ring_heap (λ _, "...")) Samples.ring_reach.
Proof.
  intros v1 v2 Hin.
  repeat (apply elem_of_cons in Hin as [Hin | Hin]; [injection Hin as -> ->|]);
    [..|by apply elem_of_nil in Hin].
  all: unfold locally_equal; cbn; split; [reflexivity|]; try done.
  all: eexists _, _; repeat split; reflexivity.
Qed.

Lemma cyclic_records_terminate_witness :
  GoHeap.run Samples.ring_heap 24 (Some Samples.ring_a) (Some Samples.ring_b)
  ≠ Diverges
  ∧ ∃ trace,
      GoHeap.run Samples.ring_heap 24 (Some Samples.ring_a) (Some Samples.ring_b)
      = Returns true trace.
Proof.
  pose proof (GoReflect_laws Samples.ring_heap (λ _, "...")) as HL.
  destruct (cyclic_records_terminate
              (H := GoHeap.GoReflect Samples.ring_heap (λ _, "..."))
              Samples.ring_reach Samples.ring_rank 1 24
              Samples.ring_a Samples.ring_b ring_cycles)
    as [Hends Htrue]; [by left | vm_compute; lia |].
  split; [exact Hends | exact (Htrue ring_identical)].
Defined.

(** ** Cycles the cycle guard does not see *)

(** A sequence stops where its first part runs out of fuel. *)
Lemma bind_out_of_fuel {A B} (m : M A) (k : A → M B) (s : deepEqualState) :
  (m s).1 = OutOfFuel → (bind m k s).1 = OutOfFuel.
Proof. unfold bind. destruct (m s) as [[a| |] s']; cbn; congruence. Qed.

Lemma defer_fst {A} (d : deepEqualState → deepEqualState) (body : M A) s :
  (defer d body s).1 = (body s).1.
Proof. unfold defer. by destruct (body s). Qed.

(** Neither the record nor the map of the two structures is ever
    addressable, so the cycle guard is skipped at every level and each
    activation calls the next. *)
Lemma map_cycle_levels (fuel : nat) :
  ∀ s,
    (deepValueEqual (H := GoHeap.GoReflect Samples.map_cycle_heap (λ _, "..."))
       fuel (GoHeap.Val Samples.holder_a None false)
            (GoHeap.Val Samples.holder_b None false) s).1 = OutOfFuel
    ∧ (deepValueEqual (H := GoHeap.GoReflect Samples.map_cycle_heap (λ _, "..."))
         fuel (GoHeap.Val (Samples.inner_map 4096%N) None false)
              (GoHeap.Val (Samples.inner_map 8192%N) None false) s).1
      = OutOfFuel.
Proof.
  induction fuel as [|fuel IH]; intros s; [done|].
  split.
  - cbn [deepValueEqual]. unfold activation. rewrite bind_modify_run, defer_fst.
    unfold cycle_guard, kind_switch.
    cbn [IsValid CanAddr Value_Type Value_Kind GoHeap.GoReflect negb orb andb
         GoHeap.tval_type GoHeap.tval_data GoHeap.kind_of
         Samples.map_holder Samples.holder_a Samples.holder_b].
    rewrite bool_decide_eq_true_2 by done. cbn [negb].
    unfold println at 1. rewrite bind_modify_run.
    change (NumField _) with 1%nat. cbn [seq forall_M].
    apply bind_out_of_fuel. unfold printf. rewrite !bind_modify_run.
    apply (IH _).
  - cbn [deepValueEqual]. unfold activation. rewrite bind_modify_run, defer_fst.
    unfold cycle_guard, kind_switch.
    cbn [IsValid CanAddr Value_Type Value_Kind GoHeap.GoReflect negb orb andb
         GoHeap.tval_type GoHeap.tval_data GoHeap.kind_of Samples.inner_map].
    rewrite bool_decide_eq_true_2 by done. cbn [negb].
    unfold println at 1. rewrite bind_modify_run.
    change (IsNil (GoHeap.Val (Samples.inner_map 4096%N) None false)) with false.
    change (IsNil (GoHeap.Val (Samples.inner_map 8192%N) None false)) with false.
    change (Len (GoHeap.Val (Samples.inner_map 4096%N) None false)) with 1%nat.
    change (Len (GoHeap.Val (Samples.inner_map 8192%N) None false)) with 1%nat.
    change (Pointer (GoHeap.Val (Samples.inner_map 4096%N) None false)) with 4096%N.
    change (Pointer (GoHeap.Val (Samples.inner_map 8192%N) None false)) with 8192%N.
    change (MapKeys (GoHeap.Val (Samples.inner_map 4096%N) None false))
      with [GoHeap.Val (GoHeap.str "x") None false].
    cbn [eqb negb Nat.eqb]. change (4096 =? 8192)%N with false. cbn [forall_M].
    apply bind_out_of_fuel. unfold printf. rewrite !bind_modify_run.
    change (MapIndex (GoHeap.Val (Samples.inner_map 4096%N) None false)
              (GoHeap.Val (GoHeap.str "x") None false))
      with (GoHeap.Val Samples.holder_a None false).
    change (MapIndex (GoHeap.Val (Samples.inner_map 8192%N) None false)
              (GoHeap.Val (GoHeap.str "x") None false))
      with (GoHeap.Val Samples.holder_b None false).
    apply (IH _).
Qed.

(** C3.  A record that holds a map that holds the record again, compared
    with a second structure built the same way: no value on the cycle is
    addressable (values taken out of a map never are), so the cycle guard
    is skipped at every level and the comparison never returns, however
    deep the recursion may go. *)
Theorem cyclic_map_never_returns (fuel : nat) :
  GoHeap.run Samples.map_cycle_heap fuel
    (Some Samples.holder_a) (Some Samples.holder_b) = Diverges.
Proof.
  unfold GoHeap.run, DeepEqual.
  change (ValueOf Samples.holder_a) with (GoHeap.Val Samples.holder_a None false).
  change (ValueOf Samples.holder_b) with (GoHeap.Val Samples.holder_b None false).
  rewrite bool_decide_eq_true_2 by done. cbn [negb].
  pose proof (proj1 (map_cycle_levels fuel initial_state)) as Hout.
  destruct (deepValueEqual _ _ _ _) as [[b| |] s]; cbn in Hout; congruence.
Qed.

(** ** The standard library's algorithm and the source

    The source differs from the algorithm it was derived from in its trace
    and in the scalar fallback.  Where [Interface()] returns, the two
    fallbacks agree, and then so do the two algorithms: whenever the source
    returns a verdict, the standard library's algorithm returns the same. *)

Section Refinement.
Context `{Reflect Value boxed}.
Hypothesis fallback_agrees : ∀ v1 v2 x1 x2,
  Interface v1 = Some x1 → Interface v2 = Some x2 →
  valueInterface v1 = Some x1 ∧ valueInterface v2 = Some x2 ∧
  boxed_eq x1 x2 = reflect_DeepEqual x1 x2.

Lemma refines_ret (b : bool) : refines (ret b) (ret b).
Proof. intros s t b' s' Hv [= <- <-]. by exists t. Qed.

Lemma refines_printf (txt : string) (m m' : M bool) :
  refines m m' → refines (printf txt;; m) m'.
Proof.
  intros Hm s t b s' Hv Hrun. unfold bind, printf, modify in Hrun.
  apply (Hm _ t) in Hrun; [done|]. cbn. by rewrite visited_indent.
Qed.

Lemma refines_println (vals : list string) (m m' : M bool) :
  refines m m' → refines (println vals;; m) m'.
Proof. apply (refines_printf (Sprintln vals)). Qed.

Lemma refines_labelled (txt : string) (m m' : M bool) :
  refines m m' → refines (printf txt;; modify (set_sub true);; m) m'.
Proof.
  intros Hm. apply refines_printf. intros s t b s' Hv Hrun.
  unfold bind, modify in Hrun. by apply (Hm _ t) in Hrun.
Qed.

Lemma refines_forall_M {A} (body body' : A → M bool) (xs : list A) :
  (∀ x, refines (body x) (body' x)) →
  refines (forall_M body xs) (forall_M body' xs).
Proof.
  intros Hb. induction xs as [|x xs IH]; cbn [forall_M]; [apply refines_ret|].
  intros s t b s' Hv Hrun. unfold bind in *.
  destruct (body x s) as [[bx| |] s1] eqn:Hx; try done.
  destruct (Hb x s t bx s1 Hv Hx) as (t1 & -> & Hv1).
  destruct bx; [by apply (IH s1) | ].
  injection Hrun as <- <-. by exists t1.
Qed.

Lemma refines_kind_switch (rec rec' : Value → Value → M bool) (v1 v2 : Value) :
  (∀ x y, refines (rec x y) (rec' x y)) →
  refines (kind_switch rec v1 v2) (std_kind_switch rec' v1 v2).
Proof.
  intros Hrec. unfold kind_switch, std_kind_switch.
  destruct (Value_Kind v1);
    try (intros s t b s' Hv Hrun;
         unfold Interface_M, bind, printf, modify, ret, panic in Hrun;
         destruct (Interface v1) as [x1|] eqn:Hx1; [|done];
         destruct (Interface v2) as [x2|] eqn:Hx2; [|done];
         destruct (fallback_agrees v1 v2 x1 x2 Hx1 Hx2) as (Hy1 & Hy2 & Heq);
         rewrite Hy1, Hy2, Heq;
         destruct (reflect_DeepEqual x1 x2); injection Hrun as <- <-;
         exists t; (split; [done|]); cbn; by rewrite visited_indent).
  - apply refines_println, refines_forall_M. auto.
  - destruct (IsNil v1 && IsNil v2); apply refines_println, refines_ret.
  - apply refines_println. destruct (IsNil v1 || IsNil v2); [|auto].
    apply refines_println, refines_ret.
  - apply refines_println.
    destruct (negb (eqb (IsNil v1) (IsNil v2))); [apply refines_println, refines_ret|].
    destruct (negb (Len v1 =? Len v2)%nat); [apply refines_println, refines_ret|].
    destruct (Pointer v1 =? Pointer v2)%N; [apply refines_println, refines_ret|].
    apply refines_forall_M. intros k. apply refines_labelled. auto.
  - apply refines_println. auto.
  - apply refines_println.
    destruct (negb (eqb (IsNil v1) (IsNil v2))).
    { intros s t b s' Hv Hrun.
      unfold Interface_M, bind, printf, println, modify, ret, panic in Hrun.
      destruct (Interface v1); [|done]. destruct (Interface v2); [|done].
      injection Hrun as <- <-. exists t. split; [done|].
      cbn. rewrite visited_indent. cbn. by rewrite visited_indent. }
    destruct (negb (Len v1 =? Len v2)%nat); [apply refines_println, refines_ret|].
    destruct (Pointer v1 =? Pointer v2)%N; [apply refines_println, refines_ret|].
    apply refines_forall_M. auto.
  - apply refines_println, refines_forall_M. intros i. apply refines_labelled. auto.
Qed.

Lemma refines_cycle_guard (v1 v2 : Value) (rest rest' : M bool) :
  refines rest rest' →
  refines (cycle_guard v1 v2 rest) (std_cycle_guard v1 v2 rest').
Proof.
  intros Hrest. unfold cycle_guard, std_cycle_guard.
  destruct (CanAddr v1 && CanAddr v2 && hard (Value_Kind v1)); [|done].
  destruct (canonicalize _ _) as [x y].
  destruct (x =? y)%N; [apply refines_println, refines_ret|].
  intros s t b s' Hv Hrun. unfold bind, visited_get, visited_set, gets, modify in *.
  rewrite <- Hv.
  destruct (default false (visited s !! Visit x y (Value_Type v1))).
  - unfold println, modify, ret in Hrun. injection Hrun as <- <-.
    exists t. split; [done|]. cbn. by rewrite visited_indent.
  - eapply Hrest; [|exact Hrun]. cbn. by rewrite Hv.
Qed.

Lemma defer_run {A} (body : M A) s (r : result A) s' :
  (modify incDepth;; defer decDepth body) s = (r, s') →
  ∃ s0, body (incDepth s) = (r, s0) ∧ s' = decDepth s0.
Proof.
  unfold bind, modify, defer. destruct (body (incDepth s)) as [r0 s0].
  intros [= <- <-]. eauto.
Qed.

Lemma refines_activation (rec rec' : Value → Value → M bool) (v1 v2 : Value) :
  (∀ x y, refines (rec x y) (rec' x y)) →
  refines (activation rec v1 v2) (std_activation rec' v1 v2).
Proof.
  intros Hrec s t b s' Hv Hrun. unfold activation, std_activation in *.
  apply defer_run in Hrun as (s0 & Hbody & ->).
  assert (∀ m m', refines m m' → m (incDepth s) = (Ret b, s0) →
            ∃ t', m' t = (Ret b, t') ∧ visited (decDepth s0) = visited t') as Huse.
  { intros m m' Hm Hmrun. by apply (Hm _ t) in Hmrun. }
  revert Hbody.
  destruct (negb (IsValid v1) || negb (IsValid v2));
    [apply Huse, refines_println, refines_ret|].
  destruct (negb (bool_decide (Value_Type v1 = Value_Type v2)));
    [apply Huse, refines_println, refines_ret|].
  by apply Huse, refines_cycle_guard, refines_kind_switch.
Qed.

Lemma deepValueEqual_refines fuel (v1 v2 : Value) :
  refines (deepValueEqual fuel v1 v2) (std_deepValueEqual fuel v1 v2).
Proof.
  revert v1 v2. induction fuel as [|fuel IH]; intros v1 v2; [by intros ?????|].
  by apply refines_activation.
Qed.

Lemma DeepEqual_refines fuel (a1 a2 : option boxed) (b : bool) (trace : string) :
  DeepEqual fuel a1 a2 = Returns b trace → std_DeepEqual fuel a1 a2 = Ret b.
Proof.
  unfold DeepEqual, std_DeepEqual. destruct a1 as [x1|], a2 as [x2|]; try by intros [= <- _].
  destruct (negb (bool_decide _)); [by intros [= <- _]|].
  destruct (deepValueEqual fuel (ValueOf x1) (ValueOf x2) initial_state)
    as [[b'| |] s'] eqn:Hrun; try done.
  intros [= <- _].
  by destruct (deepValueEqual_refines fuel _ _ _ initial_state _ _ eq_refl Hrun)
    as (t' & -> & _).
Qed.
End Refinement.

Lemma GoReflect_fallback_agrees h render (v1 v2 : GoHeap.Value) (x1 x2 : GoHeap.tval) :
  Interface (Reflect := GoHeap.GoReflect h render) v1 = Some x1 →
  Interface (Reflect := GoHeap.GoReflect h render) v2 = Some x2 →
  valueInterface (Reflect := GoHeap.GoReflect h render) v1 = Some x1
  ∧ valueInterface (Reflect := GoHeap.GoReflect h render) v2 = Some x2
  ∧ boxed_eq (Reflect := GoHeap.GoReflect h render) x1 x2
    = reflect_DeepEqual (Reflect := GoHeap.GoReflect h render) x1 x2.
Proof.
  destruct v1 as [|y1 a1 [|]], v2 as [|y2 a2 [|]]; cbn; try done.
  all: by intros [= ->] [= ->].
Qed.

(** On the model of Go values: a verdict of the source is the verdict of the
    standard library's algorithm. *)
Lemma run_refines_run_std h fuel (a1 a2 : option GoHeap.tval) b trace :
  GoHeap.run h fuel a1 a2 = Returns b trace → GoHeap.run_std h fuel a1 a2 = Ret b.
Proof.
  apply (DeepEqual_refines (H := GoHeap.GoReflect h _)).
  apply GoReflect_fallback_agrees.
Qed.

(** ** Records behind references *)

(** On the model of Go values: dereferencing two pointers to records gives
    two addressable structs, a pair the cycle guard covers. *)
Lemma record_behind_reference_guarded h render
    (t1 t2 : rtype) (p1 p2 : uintptr) (ad1 ad2 : option uintptr) (ro1 ro2 : bool)
    (r1 r2 : rtype) (f1 f2 : list (string * GoHeap.tval)) :
  p1 ≠ 0%N → p2 ≠ 0%N →
  GoHeap.objects h !! p1 = Some (GoHeap.TV r1 (GoHeap.DStruct f1)) →
  GoHeap.objects h !! p2 = Some (GoHeap.TV r2 (GoHeap.DStruct f2)) →
  guarded (H := GoHeap.GoReflect h render)
    (Elem (Reflect := GoHeap.GoReflect h render)
       (GoHeap.Val (GoHeap.TV t1 (GoHeap.DPtr p1)) ad1 ro1))
    (Elem (Reflect := GoHeap.GoReflect h render)
       (GoHeap.Val (GoHeap.TV t2 (GoHeap.DPtr p2)) ad2 ro2)) = true.
Proof.
  intros Hp1 Hp2 Ho1 Ho2. unfold guarded. cbn.
  apply N.eqb_neq in Hp1, Hp2. by rewrite Hp1, Hp2, Ho1, Ho2.
Qed.

(** ** Sample runs *)

(** The record that points to itself against its twin, and against a ring of
    another shape. *)
Example self_reference_equal :
  GoHeap.run Samples.loop_heap 4 (Some Samples.loop_a) (Some Samples.loop_b)
  = Returns true
      ("Comparing pointers of type: *main.Node" +:+ nl +:+
       "  Comparing structs of type: main.Node" +:+ nl +:+
       "    Val: 1 == 1" +:+ nl +:+
       "    Next: Comparing pointers of type: *main.Node" +:+ nl +:+
       "        Already visited, so equal" +:+ nl).
Proof. vm_compute. reflexivity. Qed.

Example self_reference_other_shape :
  ∃ trace,
    GoHeap.run Samples.loop_heap 8 (Some Samples.loop_a) (Some Samples.loop_c)
    = Returns false trace.
Proof. eexists. vm_compute. reflexivity. Qed.

(** The end-to-end example of the specification. *)
Example name_and_tags :
  GoHeap.run Samples.tags_heap 3
    (Some (Samples.tagged 4096%N)) (Some (Samples.tagged 8192%N))
  = Returns false
      ("Comparing structs of type: main.S" +:+ nl +:+
       "  Name: " +:+ GoHeap.quote +:+ "a" +:+ GoHeap.quote +:+ " == "
                  +:+ GoHeap.quote +:+ "a" +:+ GoHeap.quote +:+ nl +:+
       "  Tags: Comparing slices of type: []string" +:+ nl +:+
       "    " +:+ GoHeap.quote +:+ "x" +:+ GoHeap.quote +:+ " == "
              +:+ GoHeap.quote +:+ "x" +:+ GoHeap.quote +:+ nl +:+
       "    " +:+ GoHeap.quote +:+ "y" +:+ GoHeap.quote +:+ " != "
              +:+ GoHeap.quote +:+ "z" +:+ GoHeap.quote +:+ nl).
Proof. vm_compute. reflexivity. Qed.

(** * Further properties of the comparator *)

(** ** Balance of the nesting counter, growth of the trace *)

Lemma append_empty_r (a : string) : a +:+ EmptyString = a.
Proof.
  induction a as [|c a IH]; [done|].
  change (String c (a +:+ EmptyString) = String c a). by f_equal.
Qed.

Section Balance.
Context `{Reflect Value boxed}.

(** X1.  A call leaves the nesting counter as it found it, however it ends:
    with a verdict, with a panic, or out of fuel. *)
Theorem depth_restored fuel (v1 v2 : Value) (s : deepEqualState) :
  depth (deepValueEqual fuel v1 v2 s).2 = depth s.
Proof.
  revert v1 v2 s. induction fuel as [|fuel IH]; intros v1 v2 s; [done|].
  cbn [deepValueEqual]. unfold activation, bind at 1, modify, defer.
  match goal with |- context [let (r, s') := ?body (incDepth s) in _] =>
    assert (steps same_depth body) as Hbody end.
  { assert (∀ vals (b : bool), steps same_depth (println vals;; ret b)) as Hline.
    { intros vals b s0. unfold same_depth. cbn. apply depth_indent. }
    destruct (negb (IsValid v1) || negb (IsValid v2)); [apply Hline|].
    destruct (negb (bool_decide (Value_Type v1 = Value_Type v2))); [apply Hline|].
    apply steps_cycle_guard, steps_kind_switch; unfold same_depth; try done.
    all: try (intros; congruence).
    all: try (intros; cbn; by rewrite ?depth_indent). }
  specialize (Hbody (incDepth s)). unfold same_depth in Hbody.
  destruct (_ (incDepth s)) as [r s']. cbn in *. lia.
Qed.

(** X2.  A call only appends to the trace: what was written before it is
    still there, unchanged, in front of what the call wrote. *)
Theorem trace_append_only fuel (v1 v2 : Value) (s : deepEqualState) :
  ∃ suffix, w (deepValueEqual fuel v1 v2 s).2 = w s +:+ suffix.
Proof.
  apply (deepValueEqual_steps extends); unfold extends; cbn.
  - intros s0. exists EmptyString. by rewrite append_empty_r.
  - intros s1 s2 s3 [u ->] [u' ->]. exists (u +:+ u'). apply append_assoc.
  - intros s0. exists EmptyString. by rewrite append_empty_r.
  - intros s0. exists EmptyString. by rewrite append_empty_r.
  - intros _ s0. exists EmptyString. by rewrite append_empty_r.
  - intros txt s0. by exists txt.
  - intros _ _ _ s0 _. exists EmptyString. by rewrite append_empty_r.
Qed.
End Balance.

(** ** The label flag and the line structure of the trace *)

Lemma sub_indent s : sub (indent s) = false.
Proof.
  unfold indent. destruct (sub s) eqn:E; [done|].
  by destruct (0 <? depth s)%Z.
Qed.

Lemma ends_with_nl_append (a b : string) : ends_with_nl b → ends_with_nl (a +:+ b).
Proof. intros [u ->]. exists (a +:+ u). by rewrite append_assoc. Qed.

Lemma ends_with_nl_Sprintln vals : ends_with_nl (Sprintln vals).
Proof. by eexists. Qed.

Lemma settled_line (txt : string) s : ends_with_nl txt → settled (Fprint txt (indent s)).
Proof.
  intros Htxt. split; [apply sub_indent|]. cbn. by apply ends_with_nl_append.
Qed.

Lemma stays_settled_ret (b : bool) : stays_settled (ret b).
Proof. by intros s b' s' Hs [= <- <-]. Qed.

Lemma settles_stays (m : M bool) : settles m → stays_settled m.
Proof. intros Hm s b s' _. apply Hm. Qed.

Lemma settles_printf (txt : string) (rest : M bool) :
  ends_with_nl txt → stays_settled rest → settles (printf txt;; rest).
Proof.
  intros Htxt Hrest s b s' Hrun. unfold bind, printf, modify in Hrun.
  eapply Hrest; [|exact Hrun]. by apply settled_line.
Qed.

Lemma settles_println (vals : list string) (rest : M bool) :
  stays_settled rest → settles (println vals;; rest).
Proof. apply (settles_printf (Sprintln vals)), ends_with_nl_Sprintln. Qed.

Lemma settles_labelled (txt : string) (m : M bool) :
  settles m → settles (printf txt;; modify (set_sub true);; m).
Proof.
  intros Hm s b s' Hrun. unfold bind, printf, modify in Hrun.
  exact (Hm _ _ _ Hrun).
Qed.

Lemma stays_settled_forall_M {A} (body : A → M bool) (xs : list A) :
  (∀ x, settles (body x)) → stays_settled (forall_M body xs).
Proof.
  intros Hb. induction xs as [|x xs IH]; cbn [forall_M]; [apply stays_settled_ret|].
  intros s b s' Hs Hrun. unfold bind in Hrun.
  destruct (body x s) as [[[|]| |] s1] eqn:Hx; try done.
  - eapply IH; [|exact Hrun]. by eapply Hb.
  - injection Hrun as <- <-. by eapply Hb.
Qed.

Section Settled.
Context `{Reflect Value boxed}.

Lemma settles_kind_switch (rec : Value → Value → M bool) (v1 v2 : Value) :
  (∀ x y, settles (rec x y)) → settles (kind_switch rec v1 v2).
Proof.
  intros Hrec. unfold kind_switch.
  assert (∀ a b c, ends_with_nl (a +:+ b +:+ c +:+ nl)) as Hnl.
  { intros a b c. do 2 apply ends_with_nl_append. exists c. reflexivity. }
  assert (∀ v (k : boxed → M bool), (∀ x, settles (k x)) →
            settles (x <- Interface_M v;; k x)) as Hbox.
  { intros v k Hk s b s' Hrun. unfold bind, Interface_M in Hrun.
    destruct (Interface v) as [x|]; [|done]. exact (Hk x _ _ _ Hrun). }
  destruct (Value_Kind v1);
    try (apply Hbox; intros x1; cbv beta; apply Hbox; intros x2; cbv beta;
         destruct (reflect_DeepEqual x1 x2);
         apply Hbox; intros y1; cbv beta; apply Hbox; intros y2; cbv beta;
         (apply settles_printf; [apply Hnl | apply stays_settled_ret])).
  - apply settles_println, stays_settled_forall_M. auto.
  - destruct (IsNil v1 && IsNil v2); apply settles_println, stays_settled_ret.
  - apply settles_println. destruct (IsNil v1 || IsNil v2).
    + apply settles_stays, settles_println, stays_settled_ret.
    + apply settles_stays, Hrec.
  - apply settles_println.
    destruct (negb (eqb (IsNil v1) (IsNil v2)));
      [apply settles_stays, settles_println, stays_settled_ret|].
    destruct (negb (Len v1 =? Len v2)%nat);
      [apply settles_stays, settles_println, stays_settled_ret|].
    destruct (Pointer v1 =? Pointer v2)%N;
      [apply settles_stays, settles_println, stays_settled_ret|].
    apply stays_settled_forall_M. intros k. apply settles_labelled, Hrec.
  - apply settles_println, settles_stays, Hrec.
  - apply settles_println.
    destruct (negb (eqb (IsNil v1) (IsNil v2))).
    { apply settles_stays, Hbox. intros x1. cbv beta. apply Hbox. intros x2.
      cbv beta. apply settles_printf; [apply ends_with_nl_append, Hnl|].
      apply settles_stays, settles_println, stays_settled_ret. }
    destruct (negb (Len v1 =? Len v2)%nat);
      [apply settles_stays, settles_println, stays_settled_ret|].
    destruct (Pointer v1 =? Pointer v2)%N;
      [apply settles_stays, settles_println, stays_settled_ret|].
    apply stays_settled_forall_M. auto.
  - apply settles_println, stays_settled_forall_M.
    intros i. apply settles_labelled, Hrec.
Qed.

Lemma settles_cycle_guard (v1 v2 : Value) (rest : M bool) :
  settles rest → settles (cycle_guard v1 v2 rest).
Proof.
  intros Hrest. unfold cycle_guard.
  destruct (CanAddr v1 && CanAddr v2 && hard (Value_Kind v1)); [|done].
  destruct (canonicalize _ _) as [x y].
  destruct (x =? y)%N; [apply settles_println, stays_settled_ret|].
  intros s b s' Hrun. unfold bind, visited_get, gets in Hrun.
  destruct (default false _).
  - revert Hrun. apply settles_println, stays_settled_ret.
  - unfold visited_set, modify in Hrun. exact (Hrest _ _ _ Hrun).
Qed.

Lemma deepValueEqual_settles fuel (v1 v2 : Value) :
  settles (deepValueEqual fuel v1 v2).
Proof.
  revert v1 v2. induction fuel as [|fuel IH]; intros v1 v2; [by intros ????|].
  intros s b s' Hrun. cbn [deepValueEqual] in Hrun. unfold activation in Hrun.
  apply defer_run in Hrun as (s0 & Hbody & ->).
  assert (settled s0) as [Hsub Hnl]; [|by split].
  revert Hbody.
  destruct (negb (IsValid v1) || negb (IsValid v2));
    [apply settles_println, stays_settled_ret|].
  destruct (negb (bool_decide (Value_Type v1 = Value_Type v2)));
    [apply settles_println, stays_settled_ret|].
  by apply settles_cycle_guard, settles_kind_switch.
Qed.

(** X3.  When a call returns, no label is left pending: the flag set before
    a descent into a field or a map entry has been used up by the first line
    of that descent. *)
Theorem label_flag_consumed fuel (v1 v2 : Value) s b s' :
  deepValueEqual fuel v1 v2 s = (Ret b, s') → sub s' = false.
Proof. intros Hrun. by apply deepValueEqual_settles in Hrun as [? _]. Qed.

(** X4.  A trace returned by the entry point is empty or ends with a line
    break: a field name or a map key is never left without the verdict line
    that follows it. *)
Theorem returned_trace_complete_lines fuel (a1 a2 : option boxed) b trace :
  DeepEqual fuel a1 a2 = Returns b trace →
  trace = EmptyString ∨ ∃ u, trace = u +:+ nl.
Proof.
  unfold DeepEqual. destruct a1 as [x1|], a2 as [x2|]; try (intros [= _ <-]; by left).
  destruct (negb (bool_decide _)); [intros [= _ <-]; by left|].
  destruct (deepValueEqual _ _ _ _) as [[b'| |] s'] eqn:Hrun; try done.
  intros [= _ <-]. right. by apply deepValueEqual_settles in Hrun as [_ ?].
Qed.
End Settled.

(** ** Edge behaviour of the branches *)

Lemma indent_incDepth_0 v t :
  indent (incDepth (State v 0 false t)) = State v 1 false (t +:+ "  ").
Proof. reflexivity. Qed.

Section Branches.
Context `{Reflect Value boxed} `{!ReflectLaws}.

(** The entry point on two inputs of one type is the switch run from the
    state of the first activation. *)
Lemma DeepEqual_kind_switch fuel (x1 x2 : boxed) :
  Value_Type (ValueOf x1) = Value_Type (ValueOf x2) →
  DeepEqual (S fuel) (Some x1) (Some x2) =
    match kind_switch (deepValueEqual fuel) (ValueOf x1) (ValueOf x2)
            (State ∅ 0 false EmptyString) with
    | (Ret b, s) => Returns b (w s)
    | (Panic, _) => Panics
    | (OutOfFuel, _) => Diverges
    end.
Proof.
  intros Ht. rewrite DeepEqual_unfold by done.
  cbn [deepValueEqual]. unfold activation, cycle_guard.
  rewrite !ValueOf_IsValid, !ValueOf_CanAddr. cbn [negb orb andb].
  rewrite bool_decide_eq_true_2 by done. cbn [negb].
  unfold bind at 1. cbn [modify]. unfold defer. rewrite incDepth_initial.
  by destruct (kind_switch _ _ _ _) as [[b| |] s].
Qed.

(** X5.  Two funcs of one type compare equal exactly when both are nil, so
    a non-nil func is unequal even to itself; the visited set is not
    touched. *)
Theorem funcs_equal_only_if_both_nil fuel (v1 v2 : Value) (s : deepEqualState) :
  IsValid v1 = true → IsValid v2 = true →
  Value_Type v1 = Value_Type v2 →
  Value_Kind v1 = reflect.Func →
  ∃ s', deepValueEqual (S fuel) v1 v2 s = (Ret (IsNil v1 && IsNil v2), s')
        ∧ visited s' = visited s.
Proof.
  intros Hv1 Hv2 Ht Hk. cbn [deepValueEqual].
  unfold activation, cycle_guard, kind_switch.
  rewrite Hv1, Hv2, Ht, Hk, !andb_false_r. cbn [negb orb].
  rewrite bool_decide_eq_true_2 by done. cbn [negb].
  unfold bind at 1. cbn [modify]. unfold defer.
  destruct (IsNil v1 && IsNil v2); unfold bind, println, modify, ret;
    eexists; (split; [reflexivity|]); cbn; by rewrite visited_indent.
Qed.

(** X6.  A nil map against a non-nil map of the same type (an empty one in
    particular) compares unequal, with the header and the verdict line as
    trace. *)
Theorem DeepEqual_nil_map_vs_empty (fuel : nat) (x1 x2 : boxed) :
  Value_Kind (ValueOf x1) = reflect.Map →
  Value_Type (ValueOf x1) = Value_Type (ValueOf x2) →
  IsNil (ValueOf x1) ≠ IsNil (ValueOf x2) →
  DeepEqual (S fuel) (Some x1) (Some x2) =
    Returns false
      (Sprintln ["Comparing map of type:"; Type_String (Value_Type (ValueOf x1))] +:+
       Sprintln ["  One of the maps is nil, so not equal"]).
Proof.
  intros Hk Ht Hnil. rewrite DeepEqual_kind_switch by done.
  unfold kind_switch. rewrite Hk.
  destruct (eqb (IsNil (ValueOf x1)) (IsNil (ValueOf x2))) eqn:E.
  { by apply eqb_prop in E. }
  cbn [negb]. run_top. reflexivity.
Qed.

(** X7.  Two slices, or two maps, of one type and of different lengths
    compare unequal without any element being looked at: fuel 1 suffices and
    the trace is the header and the verdict line. *)
Theorem DeepEqual_length_mismatch (fuel : nat) (x1 x2 : boxed) :
  Value_Type (ValueOf x1) = Value_Type (ValueOf x2) →
  IsNil (ValueOf x1) = IsNil (ValueOf x2) →
  Len (ValueOf x1) ≠ Len (ValueOf x2) →
  (Value_Kind (ValueOf x1) = reflect.Slice →
   DeepEqual (S fuel) (Some x1) (Some x2) =
     Returns false
       (Sprintln ["Comparing slices of type:"; Type_String (Value_Type (ValueOf x1))] +:+
        Sprintln ["  Unequal lengths, so not equal"]))
  ∧ (Value_Kind (ValueOf x1) = reflect.Map →
     DeepEqual (S fuel) (Some x1) (Some x2) =
       Returns false
         (Sprintln ["Comparing map of type:"; Type_String (Value_Type (ValueOf x1))] +:+
          Sprintln ["  Lengths don't match, so not equal"])).
Proof.
  intros Ht Hnil Hlen. apply Nat.eqb_neq in Hlen.
  split; intros Hk; rewrite DeepEqual_kind_switch by done;
    unfold kind_switch; rewrite Hk, Hnil, eqb_reflx, Hlen; cbn [negb];
    run_top; reflexivity.
Qed.

(** X9.  Two pointers of one type of which at least one is nil: the
    pointees are compared, the validity test of the next activation decides,
    and the verdict is true exactly when both are nil. *)
Theorem DeepEqual_nil_pointer (fuel : nat) (x1 x2 : boxed) :
  Value_Kind (ValueOf x1) = reflect.Ptr →
  Value_Type (ValueOf x1) = Value_Type (ValueOf x2) →
  IsValid (Elem (ValueOf x1)) = false ∨ IsValid (Elem (ValueOf x2)) = false →
  DeepEqual (S (S fuel)) (Some x1) (Some x2) =
    Returns (eqb (IsValid (Elem (ValueOf x1))) (IsValid (Elem (ValueOf x2))))
      (Sprintln ["Comparing pointers of type:"; Type_String (Value_Type (ValueOf x1))] +:+
       "  " +:+ Sprintln ["Something is not valid:"; fmt_v (Elem (ValueOf x1));
                          fmt_v (Elem (ValueOf x2))]).
Proof.
  intros Hk Ht Hnil. rewrite DeepEqual_kind_switch by done.
  unfold kind_switch. rewrite Hk. unfold bind at 1. rewrite println_run.
  rewrite indent_State_0, Fprint_State.
  cbn [deepValueEqual]. unfold activation.
  assert (negb (IsValid (Elem (ValueOf x1))) || negb (IsValid (Elem (ValueOf x2))) = true)
    as ->.
  { destruct Hnil as [-> | ->]; [done | apply orb_true_r]. }
  unfold bind, println, modify, defer, ret.
  rewrite indent_incDepth_0, Fprint_State. cbn [w decDepth].
  f_equal. by rewrite !append_assoc.
Qed.

(** X10.  A non-nil pointer to an array, slice, map or struct compared with
    itself: the pointee is addressable and at one address on both sides, so
    the verdict is true without a look into the pointee, whatever it
    holds. *)
Theorem DeepEqual_pointer_to_itself (fuel : nat) (x : boxed) :
  Value_Kind (ValueOf x) = reflect.Ptr →
  IsValid (Elem (ValueOf x)) = true →
  CanAddr (Elem (ValueOf x)) = true →
  hard (Value_Kind (Elem (ValueOf x))) = true →
  DeepEqual (S (S fuel)) (Some x) (Some x) =
    Returns true
      (Sprintln ["Comparing pointers of type:"; Type_String (Value_Type (ValueOf x))] +:+
       "  " +:+ Sprintln ["  Same address, so equal"]).
Proof.
  intros Hk Hv Ha Hh. rewrite DeepEqual_kind_switch by done.
  unfold kind_switch. rewrite Hk. unfold bind at 1. rewrite println_run.
  rewrite indent_State_0, Fprint_State.
  rewrite deepValueEqual_same_address by done.
  rewrite indent_incDepth_0, Fprint_State. cbn [w decDepth].
  f_equal. by rewrite !append_assoc.
Qed.

(** X11.  Two scalars of one type of which one was reached through an
    unexported field ([Interface()] panics on it): the call panics before it
    has written anything, and the visited set is as before. *)
Theorem unexported_scalar_panics fuel (v1 v2 : Value) (s : deepEqualState) :
  IsValid v1 = true → IsValid v2 = true →
  Value_Type v1 = Value_Type v2 →
  scalar_kind (Value_Kind v1) = true →
  Interface v1 = None ∨ Interface v2 = None →
  ∃ s', deepValueEqual (S fuel) v1 v2 s = (Panic, s')
        ∧ w s' = w s ∧ visited s' = visited s.
Proof.
  intros Hv1 Hv2 Ht Hk Hro. cbn [deepValueEqual].
  unfold activation, cycle_guard, kind_switch.
  rewrite Hv1, Hv2, Ht, (scalar_kind_not_hard _ Hk), !andb_false_r.
  rewrite bool_decide_eq_true_2 by done. cbn [negb orb].
  unfold bind at 1. cbn [modify]. unfold defer.
  assert ((x1 <- Interface_M v1;; x2 <- Interface_M v2;;
           if reflect_DeepEqual x1 x2 then
             y1 <- Interface_M v1;; y2 <- Interface_M v2;;
             printf (fmt_sharp_v y1 +:+ " == " +:+ fmt_sharp_v y2 +:+ nl);; ret true
           else
             y1 <- Interface_M v1;; y2 <- Interface_M v2;;
             printf (fmt_sharp_v y1 +:+ " != " +:+ fmt_sharp_v y2 +:+ nl);; ret false)
          (incDepth s) = (Panic, incDepth s)) as Hpanic.
  { unfold bind, Interface_M, panic.
    destruct Hro as [-> | ->]; [done|]. by destruct (Interface v1). }
  destruct (Value_Kind v1); try discriminate Hk; rewrite Hpanic; by eexists.
Qed.
End Branches.

(** ** Missing keys, and runs without panic *)

Lemma calm_ret (b : bool) : calm (ret b).
Proof. by intros s. Qed.

Lemma calm_printf (txt : string) (m : M bool) : calm m → calm (printf txt;; m).
Proof. intros Hm s. apply Hm. Qed.

Lemma calm_println (vals : list string) (m : M bool) : calm m → calm (println vals;; m).
Proof. intros Hm s. apply Hm. Qed.

Lemma calm_labelled (txt : string) (m : M bool) :
  calm m → calm (printf txt;; modify (set_sub true);; m).
Proof. intros Hm s. apply Hm. Qed.

Lemma calm_forall_M {A} (body : A → M bool) (xs : list A) :
  (∀ x, x ∈ xs → calm (body x)) → calm (forall_M body xs).
Proof.
  induction xs as [|x xs IH]; intros Hb; cbn [forall_M]; [apply calm_ret|].
  intros s. unfold bind. pose proof (Hb x ltac:(by left) s) as Hx.
  destruct (body x s) as [[[|]| |] s1]; cbn [fst] in *; try done.
  apply IH. intros y Hy. apply Hb. by right.
Qed.

Section Branches.
Context `{Reflect Value boxed} `{!ReflectLaws}.

Lemma deepValueEqual_one_invalid fuel (v1 v2 : Value) (s : deepEqualState) :
  IsValid v1 ≠ IsValid v2 →
  ∃ s', deepValueEqual (S fuel) v1 v2 s = (Ret false, s').
Proof.
  intros Hne. cbn [deepValueEqual]. unfold activation.
  destruct (IsValid v1), (IsValid v2); try done;
    unfold bind, println, modify, defer, ret; cbn; eauto.
Qed.

(** X8.  Two maps of one type and one length with scalar values: if a key
    of the first map is missing from the second, the verdict is false. *)
Theorem DeepEqual_missing_key (fuel : nat) (x1 x2 : boxed) :
  Value_Kind (ValueOf x1) = reflect.Map →
  Value_Type (ValueOf x1) = Value_Type (ValueOf x2) →
  IsNil (ValueOf x1) = IsNil (ValueOf x2) →
  Len (ValueOf x1) = Len (ValueOf x2) →
  Pointer (ValueOf x1) ≠ Pointer (ValueOf x2) →
  (∀ k, k ∈ MapKeys (ValueOf x1) →
        IsValid (MapIndex (ValueOf x1) k) ≠ IsValid (MapIndex (ValueOf x2) k)
        ∨ ∃ b, scalars_with_verdict
                 (MapIndex (ValueOf x1) k) (MapIndex (ValueOf x2) k) b) →
  (∃ k, k ∈ MapKeys (ValueOf x1) ∧
        IsValid (MapIndex (ValueOf x1) k) = true ∧
        IsValid (MapIndex (ValueOf x2) k) = false) →
  ∃ trace, DeepEqual (S (S fuel)) (Some x1) (Some x2) = Returns false trace.
Proof.
  intros Hk Ht Hnil Hlen Hptr Hkeys (k0 & Hk0 & Hv1 & Hv2).
  rewrite DeepEqual_kind_switch by done.
  unfold kind_switch. rewrite Hk, Hnil, Hlen, eqb_reflx, Nat.eqb_refl.
  apply N.eqb_neq in Hptr. rewrite Hptr. cbn [negb].
  unfold bind at 1. rewrite println_run.
  set (verdict := λ k : Value,
         eqb (IsValid (MapIndex (ValueOf x1) k)) (IsValid (MapIndex (ValueOf x2) k))
         && match Interface (MapIndex (ValueOf x1) k),
                  Interface (MapIndex (ValueOf x2) k) with
            | Some y1, Some y2 => reflect_DeepEqual y1 y2
            | _, _ => true
            end).
  match goal with |- context [forall_M ?body ?xs ?s0] =>
    destruct (forall_M_some_false body verdict xs s0) as [s' ->] end; [| |eauto].
  - intros k s0 Hin. unfold bind, printf, modify, verdict.
    destruct (Hkeys k Hin) as [Hne | [b Hb]].
    + destruct (deepValueEqual_one_invalid fuel _ _
                  (set_sub true (Fprint (fmt_sharp_v_Value k +:+ ": ") (indent s0))) Hne)
        as [s' ->].
      exists s'. f_equal. f_equal.
      by destruct (IsValid (MapIndex (ValueOf x1) k)),
                  (IsValid (MapIndex (ValueOf x2) k)).
    + destruct (deepValueEqual_scalars fuel _ _ b
                  (set_sub true (Fprint (fmt_sharp_v_Value k +:+ ": ") (indent s0))) Hb)
        as [s' ->].
      exists s'. f_equal. f_equal.
      destruct Hb as (-> & -> & _ & _ & y1 & y2 & -> & -> & ->). done.
  - exists k0. split; [done|]. unfold verdict. by rewrite Hv1, Hv2.
Qed.
End Branches.

Section NoPanic.
Context `{Reflect Value boxed}.

Lemma calm_kind_switch (rec : Value → Value → M bool) (v1 v2 : Value) :
  IsValid v1 = true → IsValid v2 = true →
  Value_Type v1 = Value_Type v2 →
  is_Some (Interface v1) → is_Some (Interface v2) →
  (∀ c1 c2, (c1, c2) ∈ children v1 v2 → calm (rec c1 c2)) →
  calm (kind_switch rec v1 v2).
Proof.
  intros Hv1 Hv2 Ht [x1 Hx1] [x2 Hx2] Hrec.
  unfold children in Hrec. rewrite Hv1, Hv2, Ht in Hrec.
  rewrite bool_decide_eq_true_2 in Hrec by done. cbn [negb orb] in Hrec.
  unfold kind_switch.
  destruct (Value_Kind v1);
    try (intros s; unfold Interface_M, bind, printf, modify, ret;
         rewrite Hx1, Hx2; by destruct (reflect_DeepEqual x1 x2)).
  - apply calm_println, calm_forall_M. intros i Hi. apply Hrec.
    by apply (list_elem_of_fmap_2 (λ i, (Index v1 i, Index v2 i))).
  - destruct (IsNil v1 && IsNil v2); apply calm_println, calm_ret.
  - apply calm_println. destruct (IsNil v1 || IsNil v2).
    + apply calm_println, calm_ret.
    + apply Hrec. by left.
  - apply calm_println.
    destruct (negb (eqb (IsNil v1) (IsNil v2))); [apply calm_println, calm_ret|].
    destruct (negb (Len v1 =? Len v2)%nat); [apply calm_println, calm_ret|].
    destruct (Pointer v1 =? Pointer v2)%N; [apply calm_println, calm_ret|].
    apply calm_forall_M. intros k Hk. apply calm_labelled, Hrec.
    by apply (list_elem_of_fmap_2 (λ k, (MapIndex v1 k, MapIndex v2 k))).
  - apply calm_println, Hrec. by left.
  - apply calm_println.
    destruct (negb (eqb (IsNil v1) (IsNil v2))).
    { intros s. unfold Interface_M, bind, printf, println, modify, ret.
      by rewrite Hx1, Hx2. }
    destruct (negb (Len v1 =? Len v2)%nat); [apply calm_println, calm_ret|].
    destruct (Pointer v1 =? Pointer v2)%N; [apply calm_println, calm_ret|].
    apply calm_forall_M. intros i Hi. apply Hrec.
    by apply (list_elem_of_fmap_2 (λ i, (Index v1 i, Index v2 i))).
  - apply calm_println, calm_forall_M. intros i Hi. apply calm_labelled, Hrec.
    by apply (list_elem_of_fmap_2 (λ i, (Field v1 i, Field v2 i))).
Qed.

Lemma calm_activation (rec : Value → Value → M bool) (v1 v2 : Value) :
  (IsValid v1 = true → is_Some (Interface v1)) →
  (IsValid v2 = true → is_Some (Interface v2)) →
  (∀ c1 c2, (c1, c2) ∈ children v1 v2 → calm (rec c1 c2)) →
  calm (activation rec v1 v2).
Proof.
  intros Hb1 Hb2 Hrec s. unfold activation, bind at 1, modify, defer.
  match goal with |- context [let (r, s') := ?body (incDepth s) in _] =>
    assert (calm body) as Hbody end.
  { destruct (negb (IsValid v1) || negb (IsValid v2)) eqn:Hvalid;
      [apply calm_println, calm_ret|].
    apply orb_false_elim in Hvalid as [Hv1 Hv2].
    apply negb_false_iff in Hv1, Hv2.
    destruct (bool_decide (Value_Type v1 = Value_Type v2)) eqn:Htype; cbn [negb];
      [|apply calm_println, calm_ret].
    apply bool_decide_eq_true_1 in Htype.
    assert (calm (kind_switch rec v1 v2)) as Hswitch
      by (apply calm_kind_switch; auto).
    unfold cycle_guard.
    destruct (CanAddr v1 && CanAddr v2 && hard (Value_Kind v1)); [|done].
    destruct (canonicalize _ _) as [x y].
    destruct (x =? y)%N; [apply calm_println, calm_ret|].
    intros s0. unfold bind, visited_get, gets.
    destruct (default false _); [done|]. apply Hswitch. }
  specialize (Hbody (incDepth s)). by destruct (_ (incDepth s)).
Qed.

Lemma deepValueEqual_calm
    (reach : list (Value * Value)) (fuel : nat) (v1 v2 : Value) (s : deepEqualState) :
  closed_under_children reach → boxable reach →
  (v1, v2) ∈ reach →
  (deepValueEqual fuel v1 v2 s).1 ≠ Panic.
Proof.
  intros Hclosed Hbox. revert v1 v2 s.
  induction fuel as [|fuel IH]; intros v1 v2 s Hin; [done|].
  cbn [deepValueEqual]. apply calm_activation; [apply (Hbox _ _ Hin)..|].
  intros c1 c2 Hc s0. apply IH. by eapply Hclosed.
Qed.

(** X12.  If no value the comparison can reach was obtained through an
    unexported field, the entry point does not panic. *)
Theorem no_panic_without_unexported_fields
    (reach : list (Value * Value)) (fuel : nat) (x1 x2 : boxed) :
  closed_under_children reach → boxable reach →
  (ValueOf x1, ValueOf x2) ∈ reach →
  DeepEqual fuel (Some x1) (Some x2) ≠ Panics.
Proof.
  intros Hclosed Hbox Hin. unfold DeepEqual.
  destruct (negb (bool_decide _)); [done|].
  pose proof (deepValueEqual_calm reach fuel _ _ initial_state Hclosed Hbox Hin) as Hcalm.
  by destruct (deepValueEqual fuel (ValueOf x1) (ValueOf x2) initial_state)
    as [[b| |] s].
Qed.
End NoPanic.

(** ** Symmetry of the verdict *)








Section Symmetry.
Context `{Reflect Value boxed}.
Hypothesis reflect_DeepEqual_sym : ∀ x y : boxed,
  reflect_DeepEqual x y = reflect_DeepEqual y x.





End Symmetry.

(** ** Agreement with the standard library's algorithm *)

Section Agreement.
Context `{Reflect Value boxed}.

End Agreement.

(** ** The further properties on sample inputs *)

Lemma label_flag_consumed_witness :
  ∃ s', deepValueEqual (H := GoHeap.GoReflect GoHeap.empty_heap (λ _, "..."))
          1 (GoHeap.Val (GoHeap.int 7) None false) (GoHeap.Val (GoHeap.int 7) None false)
          (set_sub true initial_state) = (Ret true, s')
        ∧ sub s' = false.
Proof.
  eexists. split; [vm_compute; reflexivity|].
  apply (label_flag_consumed (H := GoHeap.GoReflect GoHeap.empty_heap (λ _, "..."))
           1 (GoHeap.Val (GoHeap.int 7) None false) (GoHeap.Val (GoHeap.int 7) None false)
           (set_sub true initial_state) true).
  vm_compute. reflexivity.
Defined.

Lemma returned_trace_complete_lines_witness :
  "7 == 7" +:+ nl = EmptyString ∨ ∃ u, "7 == 7" +:+ nl = u +:+ nl.
Proof.
  apply (returned_trace_complete_lines
           (H := GoHeap.GoReflect GoHeap.empty_heap (λ _, "..."))
           1 (Some (GoHeap.int 7)) (Some (GoHeap.int 7)) true).
  reflexivity.
Defined.

Lemma funcs_equal_only_if_both_nil_witness :
  (∃ s', deepValueEqual (H := GoHeap.GoReflect GoHeap.empty_heap (λ _, "..."))
           1 (GoHeap.Val Samples.some_func None false)
             (GoHeap.Val Samples.some_func None false) initial_state = (Ret false, s')
         ∧ visited s' = ∅)
  ∧ (∃ s', deepValueEqual (H := GoHeap.GoReflect GoHeap.empty_heap (λ _, "..."))
             1 (GoHeap.Val Samples.nil_func None false)
               (GoHeap.Val Samples.nil_func None false) initial_state = (Ret true, s')
           ∧ visited s' = ∅).
Proof.
  split.
  - exact (funcs_equal_only_if_both_nil
             (H := GoHeap.GoReflect GoHeap.empty_heap (λ _, "..."))
             0 (GoHeap.Val Samples.some_func None false)
               (GoHeap.Val Samples.some_func None false) initial_state
             eq_refl eq_refl eq_refl eq_refl).
  - exact (funcs_equal_only_if_both_nil
             (H := GoHeap.GoReflect GoHeap.empty_heap (λ _, "..."))
             0 (GoHeap.Val Samples.nil_func None false)
               (GoHeap.Val Samples.nil_func None false) initial_state
             eq_refl eq_refl eq_refl eq_refl).
Defined.

Lemma DeepEqual_nil_map_vs_empty_witness :
  GoHeap.run Samples.sizes_heap 1 (Some Samples.nil_map) (Some Samples.empty_map)
  = Returns false
      ("Comparing map of type: map[string]int" +:+ nl +:+
       "  One of the maps is nil, so not equal" +:+ nl).
Proof.
  pose proof (GoReflect_laws Samples.sizes_heap (λ _, "...")) as HL.
  apply (DeepEqual_nil_map_vs_empty (H := GoHeap.GoReflect Samples.sizes_heap _));
    [reflexivity | reflexivity | vm_compute; discriminate].
Defined.

Lemma DeepEqual_length_mismatch_witness :
  GoHeap.run Samples.sizes_heap 1 (Some Samples.slice_of_one) (Some Samples.slice_of_two)
  = Returns false
      ("Comparing slices of type: []int" +:+ nl +:+
       "  Unequal lengths, so not equal" +:+ nl)
  ∧ GoHeap.run Samples.sizes_heap 1 (Some Samples.map_of_one) (Some Samples.map_of_two)
    = Returns false
        ("Comparing map of type: map[string]int" +:+ nl +:+
         "  Lengths don't match, so not equal" +:+ nl).
Proof.
  pose proof (GoReflect_laws Samples.sizes_heap (λ _, "...")) as HL.
  split.
  - apply (proj1 (DeepEqual_length_mismatch
                    (H := GoHeap.GoReflect Samples.sizes_heap _)
                    0 Samples.slice_of_one Samples.slice_of_two
                    eq_refl eq_refl ltac:(vm_compute; discriminate))).
    reflexivity.
  - apply (proj2 (DeepEqual_length_mismatch
                    (H := GoHeap.GoReflect Samples.sizes_heap _)
                    0 Samples.map_of_one Samples.map_of_two
                    eq_refl eq_refl ltac:(vm_compute; discriminate))).
    reflexivity.
Defined.

Lemma DeepEqual_missing_key_witness :
  ∃ trace,
    GoHeap.run Samples.sizes_heap 2
      (Some Samples.map_of_two) (Some Samples.map_of_two_other)
    = Returns false trace.
Proof.
  pose proof (GoReflect_laws Samples.sizes_heap (λ _, "...")) as HL.
  apply (DeepEqual_missing_key (H := GoHeap.GoReflect Samples.sizes_heap _)
           0 Samples.map_of_two Samples.map_of_two_other);
    [reflexivity | reflexivity | reflexivity | reflexivity
    | vm_compute; discriminate | |].
  - intros k Hin. vm_compute in Hin.
    apply elem_of_cons in Hin as [-> | Hin];
      [|apply elem_of_cons in Hin as [-> | Hin]; [|by apply elem_of_nil in Hin]].
    + right. exists true. unfold scalars_with_verdict.
      do 4 (split; [reflexivity|]).
      exists (GoHeap.int 1), (GoHeap.int 1). by repeat split.
    + left. vm_compute. discriminate.
  - exists (GoHeap.Val (GoHeap.str "b") None false).
    split; [|split; reflexivity].
    vm_compute. right. left.
Defined.

Lemma DeepEqual_nil_pointer_witness :
  GoHeap.run Samples.pointer_samples_heap 2
    (Some Samples.nil_pointer) (Some Samples.int_pointer)
  = Returns false
      ("Comparing pointers of type: *int" +:+ nl +:+
       "  Something is not valid: <invalid reflect.Value> 1" +:+ nl)
  ∧ GoHeap.run Samples.pointer_samples_heap 2
      (Some Samples.nil_pointer) (Some Samples.nil_pointer)
    = Returns true
        ("Comparing pointers of type: *int" +:+ nl +:+
         "  Something is not valid: <invalid reflect.Value> <invalid reflect.Value>"
         +:+ nl).
Proof.
  pose proof (GoReflect_laws Samples.pointer_samples_heap (λ _, "...")) as HL.
  split.
  - apply (DeepEqual_nil_pointer (H := GoHeap.GoReflect Samples.pointer_samples_heap _)
             0 Samples.nil_pointer Samples.int_pointer eq_refl eq_refl).
    by left.
  - apply (DeepEqual_nil_pointer (H := GoHeap.GoReflect Samples.pointer_samples_heap _)
             0 Samples.nil_pointer Samples.nil_pointer eq_refl eq_refl).
    by left.
Defined.

Lemma DeepEqual_pointer_to_itself_witness :
  GoHeap.run Samples.pointer_samples_heap 2
    (Some Samples.record_pointer) (Some Samples.record_pointer)
  = Returns true
      ("Comparing pointers of type: *main.T" +:+ nl +:+
       "    Same address, so equal" +:+ nl).
Proof.
  pose proof (GoReflect_laws Samples.pointer_samples_heap (λ _, "...")) as HL.
  apply (DeepEqual_pointer_to_itself
           (H := GoHeap.GoReflect Samples.pointer_samples_heap _)
           0 Samples.record_pointer); reflexivity.
Defined.

Lemma unexported_scalar_panics_witness :
  ∃ s', deepValueEqual (H := GoHeap.GoReflect GoHeap.empty_heap (λ _, "..."))
          1 (GoHeap.Val (GoHeap.int 1) None true) (GoHeap.Val (GoHeap.int 1) None true)
          initial_state = (Panic, s')
        ∧ w s' = EmptyString ∧ visited s' = ∅.
Proof.
  apply (unexported_scalar_panics (H := GoHeap.GoReflect GoHeap.empty_heap (λ _, "..."))
           0 (GoHeap.Val (GoHeap.int 1) None true) (GoHeap.Val (GoHeap.int 1) None true)
           initial_state eq_refl eq_refl eq_refl eq_refl).
  by left.
Defined.

Lemma ring_closed :
  closed_under_children (H := GoHeap.GoReflect Samples.ring_heap (λ _, "..."))
    Samples.ring_reach.
Proof.
  intros v1 v2 c1 c2 Hin Hc. by apply (ring_cycles v1 v2 Hin).
Qed.

Lemma ring_boxable :
  boxable (H := GoHeap.GoReflect Samples.ring_heap (λ _, "...")) Samples.ring_reach.
Proof.
  intros v1 v2 Hin.
  repeat (apply elem_of_cons in Hin as [Hin | Hin]; [injection Hin as -> ->|]);
    [..|by apply elem_of_nil in Hin].
  all: split; intros _; by eexists.
Qed.




Lemma no_panic_without_unexported_fields_witness :
  GoHeap.run Samples.ring_heap 24 (Some Samples.ring_a) (Some Samples.ring_b) ≠ Panics.
Proof.
  apply (no_panic_without_unexported_fields
           (H := GoHeap.GoReflect Samples.ring_heap (λ _, "..."))
           Samples.ring_reach 24 Samples.ring_a Samples.ring_b ring_closed ring_boxable).
  by left.
Defined.



(** ** Scalars, arrays of scalars, nil interfaces *)

Section Scalars.
Context `{Reflect Value boxed} `{!ReflectLaws}.

Lemma scalar_line_cases (x1 x2 : boxed) :
  scalar_line x1 x2 =
    if reflect_DeepEqual x1 x2
    then fmt_sharp_v x1 +:+ " == " +:+ fmt_sharp_v x2 +:+ nl
    else fmt_sharp_v x1 +:+ " != " +:+ fmt_sharp_v x2 +:+ nl.
Proof. unfold scalar_line. by destruct (reflect_DeepEqual x1 x2). Qed.

(** A call on two scalars at nesting depth [d <= 0] with no label pending. *)
Lemma deepValueEqual_scalars_run fuel (c1 c2 : Value) (y1 y2 : boxed)
    (s : deepEqualState) :
  IsValid c1 = true → IsValid c2 = true →
  Value_Type c1 = Value_Type c2 →
  scalar_kind (Value_Kind c1) = true →
  Interface c1 = Some y1 → Interface c2 = Some y2 →
  deepValueEqual (S fuel) c1 c2 s =
    (Ret (reflect_DeepEqual y1 y2),
     decDepth (Fprint (scalar_line y1 y2) (indent (incDepth s)))).
Proof.
  intros Hv1 Hv2 Ht Hk Hy1 Hy2. rewrite scalar_line_cases.
  cbn [deepValueEqual]. unfold activation, cycle_guard, kind_switch.
  rewrite Hv1, Hv2, Ht, (scalar_kind_not_hard _ Hk), !andb_false_r.
  rewrite bool_decide_eq_true_2 by done. cbn [negb orb].
  unfold Interface_M. rewrite Hy1, Hy2.
  unfold bind at 1. cbn [modify]. unfold defer.
  destruct (Value_Kind c1); try discriminate Hk;
    rewrite !bind_ret_l; destruct (reflect_DeepEqual y1 y2); reflexivity.
Qed.

(** X15.  Two scalars of one type at the entry point: the verdict is the
    library's value equality and the trace is the one line showing both
    rendered values around [==] or [!=]. *)
Theorem DeepEqual_scalars (fuel : nat) (x1 x2 : boxed) :
  Value_Type (ValueOf x1) = Value_Type (ValueOf x2) →
  scalar_kind (Value_Kind (ValueOf x1)) = true →
  DeepEqual (S fuel) (Some x1) (Some x2) =
    Returns (reflect_DeepEqual x1 x2) (scalar_line x1 x2).
Proof.
  intros Ht Hk. rewrite DeepEqual_unfold by done.
  rewrite (deepValueEqual_scalars_run fuel _ _ x1 x2)
    by (try apply ValueOf_IsValid; try apply ValueOf_Interface; done).
  rewrite incDepth_initial, indent_State_0, Fprint_State. reflexivity.
Qed.

Lemma state_at_depth_1 v t :
  decDepth (State v 1 false t) = State v 0 false t.
Proof. reflexivity. Qed.

Lemma loop_over_scalars fuel (d : boxed) (v1 v2 : Value) (js : list nat) vis t :
  (∀ j, j ∈ js → ∃ b, scalars_with_verdict (Index v1 j) (Index v2 j) b) →
  forall_M (λ i, deepValueEqual (S fuel) (Index v1 i) (Index v2 i)) js
    (State vis 0 false t) =
    (Ret (forallb (element_same d v1 v2) js),
     State vis 0 false
       (t +:+ lines_until_mismatch (element_line d v1 v2) (element_same d v1 v2) js)).
Proof.
  revert t. induction js as [|j js IH]; intros t Hall.
  - cbn. by rewrite append_empty_r.
  - cbn [forall_M forallb lines_until_mismatch]. unfold bind.
    destruct (Hall j ltac:(by left)) as (b & Hv1 & Hv2 & Ht & Hk & y1 & y2 & Hy1 & Hy2 & _).
    rewrite (deepValueEqual_scalars_run fuel _ _ y1 y2) by done.
    rewrite indent_incDepth_0, Fprint_State, state_at_depth_1.
    unfold element_same at 1 3, element_line at 1. rewrite Hy1, Hy2.
    change (default d (Some y1)) with y1. change (default d (Some y2)) with y2.
    destruct (reflect_DeepEqual y1 y2).
    + rewrite IH by (intros i Hi; apply Hall; by right).
      cbn [andb]. by rewrite !append_assoc.
    + cbn [andb]. unfold ret. by rewrite append_empty_r, !append_assoc.
Qed.

(** X16.  Two arrays of scalars of one type: the verdict is true exactly
    when all elements match, and the trace is the header followed by one
    indented line per element up to and including the first mismatch; the
    elements after it are not compared. *)
Theorem DeepEqual_array_of_scalars (fuel : nat) (x1 x2 : boxed) :
  Value_Kind (ValueOf x1) = reflect.Array →
  Value_Type (ValueOf x1) = Value_Type (ValueOf x2) →
  (∀ j, (j < Len (ValueOf x1))%nat →
        ∃ b, scalars_with_verdict (Index (ValueOf x1) j) (Index (ValueOf x2) j) b) →
  DeepEqual (S (S fuel)) (Some x1) (Some x2) =
    Returns
      (forallb (element_same x1 (ValueOf x1) (ValueOf x2)) (seq 0 (Len (ValueOf x1))))
      (Sprintln ["Comparing arrays of type:"; Type_String (Value_Type (ValueOf x1))] +:+
       lines_until_mismatch (element_line x1 (ValueOf x1) (ValueOf x2))
         (element_same x1 (ValueOf x1) (ValueOf x2)) (seq 0 (Len (ValueOf x1)))).
Proof.
  intros Hk Ht Hall. rewrite DeepEqual_kind_switch by done.
  unfold kind_switch. rewrite Hk. unfold bind at 1. rewrite println_run.
  rewrite indent_State_0, Fprint_State.
  rewrite (loop_over_scalars fuel x1); [done|].
  intros j Hj. apply Hall. apply elem_of_seq in Hj. lia.
Qed.

(** X17.  Two interface values of one type of which at least one is nil:
    the verdict is true exactly when both are nil, nothing is descended into,
    and in both cases the second line written is [One of the interfaces is
    nil, so not equal]. *)
Theorem interfaces_one_nil fuel (v1 v2 : Value) (s : deepEqualState) :
  IsValid v1 = true → IsValid v2 = true →
  Value_Type v1 = Value_Type v2 →
  Value_Kind v1 = reflect.Interface →
  IsNil v1 = true ∨ IsNil v2 = true →
  deepValueEqual (S fuel) v1 v2 s =
    (Ret (eqb (IsNil v1) (IsNil v2)),
     decDepth
       (Fprint (Sprintln ["  One of the interfaces is nil, so not equal"])
          (indent
             (Fprint (Sprintln ["Comparing interfaces of type:";
                                Type_String (Value_Type v1)])
                (indent (incDepth s)))))).
Proof.
  intros Hv1 Hv2 Ht Hk Hnil. cbn [deepValueEqual].
  unfold activation, cycle_guard, kind_switch.
  rewrite Hv1, Hv2, Ht, Hk, !andb_false_r. cbn [negb orb].
  rewrite bool_decide_eq_true_2 by done. cbn [negb].
  assert (IsNil v1 || IsNil v2 = true) as ->.
  { destruct Hnil as [-> | ->]; [done | apply orb_true_r]. }
  reflexivity.
Qed.
End Scalars.

Lemma DeepEqual_scalars_witness :
  GoHeap.run GoHeap.empty_heap 1 (Some (GoHeap.int 1)) (Some (GoHeap.int 2))
  = Returns false ("1 != 2" +:+ nl).
Proof.
  pose proof (GoReflect_laws GoHeap.empty_heap (λ _, "...")) as HL.
  apply (DeepEqual_scalars (H := GoHeap.GoReflect GoHeap.empty_heap _)
           0 (GoHeap.int 1) (GoHeap.int 2)); reflexivity.
Defined.

Lemma DeepEqual_array_of_scalars_witness :
  GoHeap.run Samples.order_heap 2 (Some Samples.array_12) (Some Samples.array_21)
  = Returns false
      ("Comparing arrays of type: [2]int" +:+ nl +:+ "  1 != 2" +:+ nl).
Proof.
  pose proof (GoReflect_laws Samples.order_heap (λ _, "...")) as HL.
  apply (DeepEqual_array_of_scalars (H := GoHeap.GoReflect Samples.order_heap _)
           0 Samples.array_12 Samples.array_21); [reflexivity | reflexivity |].
  intros [|[|j]] Hj; [| |cbn in Hj; lia].
  - exists false. unfold scalars_with_verdict. do 4 (split; [reflexivity|]).
    exists (GoHeap.int 1), (GoHeap.int 2). by repeat split.
  - exists false. unfold scalars_with_verdict. do 4 (split; [reflexivity|]).
    exists (GoHeap.int 2), (GoHeap.int 1). by repeat split.
Defined.

Lemma interfaces_one_nil_witness :
  ∃ s', deepValueEqual (H := GoHeap.GoReflect GoHeap.empty_heap (λ _, "..."))
          1 (GoHeap.Val Samples.nil_error None false)
            (GoHeap.Val Samples.nil_error None false) initial_state = (Ret true, s')
        ∧ w s' = "Comparing interfaces of type: error" +:+ nl +:+
                 "  One of the interfaces is nil, so not equal" +:+ nl.
Proof.
  eexists. split.
  - apply (interfaces_one_nil (H := GoHeap.GoReflect GoHeap.empty_heap (λ _, "..."))
             0 (GoHeap.Val Samples.nil_error None false)
               (GoHeap.Val Samples.nil_error None false) initial_state
             eq_refl eq_refl eq_refl eq_refl).
    by left.
  - reflexivity.
Defined.

(** ** The visited set and the pairs in progress *)

Section VisitedPairs.
Context `{Reflect Value boxed}.

Lemma canonicalize_distinct (x y : uintptr) :
  x ≠ y → (canonicalize x y).1 ≠ (canonicalize x y).2.
Proof. unfold canonicalize. destruct (y <? x)%N; cbn; congruence. Qed.

(** X18. A guarded pair (two addressable values of array, map, slice or
    struct kind) at two different addresses whose canonical key is already
    in the visited set is reported equal at once, with the single line
    [Already visited, so equal]: the values are not looked at. *)
Theorem already_visited_assumed_equal fuel (v1 v2 : Value) (s : deepEqualState) :
  IsValid v1 = true → IsValid v2 = true →
  Value_Type v1 = Value_Type v2 →
  guarded v1 v2 = true →
  UnsafeAddr v1 ≠ UnsafeAddr v2 →
  visited s !! guard_key v1 v2 = Some true →
  deepValueEqual (S fuel) v1 v2 s =
    (Ret true,
     decDepth (Fprint (Sprintln ["  Already visited, so equal"]) (indent (incDepth s)))).
Proof.
  intros Hv1 Hv2 Ht Hg Hne Hseen. cbn [deepValueEqual].
  unfold activation, cycle_guard. fold (guarded v1 v2).
  rewrite Hv1, Hv2, Ht, Hg. rewrite bool_decide_eq_true_2 by done. cbn [negb orb].
  pose proof (canonicalize_distinct _ _ Hne) as Hxy.
  unfold guard_key in Hseen. rewrite Ht in Hseen.
  destruct (canonicalize (UnsafeAddr v1) (UnsafeAddr v2)) as [x y].
  cbn [fst snd] in *. apply N.eqb_neq in Hxy. rewrite Hxy.
  unfold bind at 1. cbn [modify]. unfold defer, bind at 1, visited_get, gets.
  cbn [visited incDepth]. by rewrite Hseen.
Qed.

Lemma scoped_run {A} (body : M A) (s : deepEqualState) :
  (modify incDepth;; defer decDepth body) s
  = ((body (incDepth s)).1, decDepth (body (incDepth s)).2).
Proof. unfold bind, modify, defer. by destruct (body (incDepth s)). Qed.

Lemma bind_visited_get {B} (v : visit) (k : bool → M B) s :
  bind (visited_get v) k s = k (default false (visited s !! v)) s.
Proof. reflexivity. Qed.

Lemma bind_visited_set {B} (v : visit) (k : unit → M B) s :
  bind (visited_set v) k s
  = k tt (State (<[v := true]> (visited s)) (depth s) (sub s) (w s)).
Proof. reflexivity. Qed.

(** X19. After a call on a valid guarded pair of one type at two different
    addresses the visited set holds the pair's canonical key, whatever the
    call's result was. *)
Theorem guarded_pair_recorded fuel (v1 v2 : Value) (s : deepEqualState) :
  IsValid v1 = true → IsValid v2 = true →
  Value_Type v1 = Value_Type v2 →
  guarded v1 v2 = true →
  UnsafeAddr v1 ≠ UnsafeAddr v2 →
  visited (deepValueEqual (S fuel) v1 v2 s).2 !! guard_key v1 v2 = Some true.
Proof.
  intros Hv1 Hv2 Ht Hg Hne. cbn [deepValueEqual].
  unfold activation. rewrite scoped_run. cbn [snd decDepth visited].
  unfold cycle_guard. fold (guarded v1 v2).
  rewrite Hv1, Hv2, Ht, Hg. rewrite bool_decide_eq_true_2 by done. cbn [negb orb].
  pose proof (canonicalize_distinct _ _ Hne) as Hxy.
  unfold guard_key. rewrite Ht.
  destruct (canonicalize (UnsafeAddr v1) (UnsafeAddr v2)) as [x y].
  cbn [fst snd] in *. apply N.eqb_neq in Hxy. rewrite Hxy.
  rewrite bind_visited_get.
  destruct (default false (visited (incDepth s) !! Visit x y (Value_Type v2)))
    eqn:Hseen.
  - cbn. rewrite visited_indent.
    by destruct (visited (incDepth s) !! Visit x y (Value_Type v2)) as [[|]|].
  - rewrite bind_visited_set.
    apply (steps_kind_switch seen_step); unfold seen_step; auto.
    + intros a b. apply deepValueEqual_seen_step.
    + cbn. apply lookup_insert_eq.
Qed.
End VisitedPairs.

Lemma already_visited_assumed_equal_witness :
  deepValueEqual (H := GoHeap.GoReflect Samples.ring_heap (λ _, "..."))
    1 (GoHeap.Val (Samples.node 1 4112%N) (Some 4096%N) false)
      (GoHeap.Val (Samples.node 2 8192%N) (Some 8208%N) false)
    (State {[ Visit 4096%N 8208%N "main.Node" := true ]} 0 false EmptyString)
  = (Ret true,
     State {[ Visit 4096%N 8208%N "main.Node" := true ]} 0 false
       ("    Already visited, so equal" +:+ nl)).
Proof.
  rewrite (already_visited_assumed_equal
           (H := GoHeap.GoReflect Samples.ring_heap (λ _, "..."))
           0 (GoHeap.Val (Samples.node 1 4112%N) (Some 4096%N) false)
             (GoHeap.Val (Samples.node 2 8192%N) (Some 8208%N) false)
           (State {[ Visit 4096%N 8208%N "main.Node" := true ]} 0 false EmptyString)
           eq_refl eq_refl eq_refl eq_refl).
  - vm_compute. reflexivity.
  - discriminate.
  - apply lookup_singleton_eq.
Defined.

Lemma guarded_pair_recorded_witness :
  visited (deepValueEqual (H := GoHeap.GoReflect Samples.ring_heap (λ _, "..."))
             1 (GoHeap.Val (Samples.node 1 4112%N) (Some 4096%N) false)
               (GoHeap.Val (Samples.node 1 8208%N) (Some 8192%N) false)
             initial_state).2
    !! Visit 4096%N 8192%N "main.Node" = Some true.
Proof.
  apply (guarded_pair_recorded
           (H := GoHeap.GoReflect Samples.ring_heap (λ _, "..."))
           0 (GoHeap.Val (Samples.node 1 4112%N) (Some 4096%N) false)
             (GoHeap.Val (Samples.node 1 8208%N) (Some 8192%N) false)
           initial_state eq_refl eq_refl eq_refl eq_refl).
  discriminate.
Defined.

(** ** Maps and arrays on sample inputs *)

Section Returning.
Context `{Reflect Value boxed}.

(** An activation on two valid values of one type returns what the guarded
    switch returns. *)
Lemma activation_returns (rec : Value → Value → M bool) (v1 v2 : Value)
    (s : deepEqualState) (b : bool) :
  IsValid v1 = true → IsValid v2 = true → Value_Type v1 = Value_Type v2 →
  (∃ s', cycle_guard v1 v2 (kind_switch rec v1 v2) (incDepth s) = (Ret b, s')) →
  ∃ s', activation rec v1 v2 s = (Ret b, s').
Proof.
  intros Hv1 Hv2 Ht [s' Hrun]. unfold activation. rewrite scoped_run.
  rewrite Hv1, Hv2. cbn [negb orb]. rewrite bool_decide_eq_true_2 by done.
  cbn [negb]. rewrite Hrun. by eexists.
Qed.
End Returning.

(** Two pointers to records that differ are found unequal as long as the
    two records are not a pair in progress. *)
Lemma records_found_unequal :
  finds (H := GoHeap.GoReflect Samples.records_heap (λ _, "..."))
    Samples.records_unseen 3
    (GoHeap.Val Samples.pointer_p None false)
    (GoHeap.Val Samples.pointer_q None false) false.
Proof.
  intros s Hs. unfold Samples.records_unseen in Hs.
  change 3%nat with (S 2). cbn [deepValueEqual].
  apply activation_returns; [reflexivity..|].
  unfold cycle_guard, kind_switch.
  cbn [CanAddr Value_Type Value_Kind GoHeap.GoReflect andb
       GoHeap.tval_type GoHeap.tval_data GoHeap.kind_of hard
       Samples.pointer_p Samples.pointer_q].
  unfold bind at 1. rewrite println_run.
  change (Elem (GoHeap.Val Samples.pointer_p None false))
    with (GoHeap.Val Samples.record_1 (Some 4096%N) false).
  change (Elem (GoHeap.Val Samples.pointer_q None false))
    with (GoHeap.Val Samples.record_2 (Some 4104%N) false).
  apply activation_returns; [reflexivity..|].
  unfold cycle_guard, kind_switch.
  cbn [CanAddr UnsafeAddr Value_Type Value_Kind GoHeap.GoReflect andb
       GoHeap.tval_type GoHeap.tval_data GoHeap.kind_of hard
       Samples.record_1 Samples.record_2].
  change (canonicalize 4096%N 4104%N) with (4096%N, 4104%N).
  cbv iota. change (4096 =? 4104)%N with false. cbv iota.
  rewrite bind_visited_get.
  cbn [visited incDepth Fprint]. rewrite visited_indent. cbn [visited incDepth].
  rewrite Hs. cbn [default]. rewrite bind_visited_set.
  unfold bind at 1. rewrite println_run.
  change (NumField _) with 1%nat. cbn [seq forall_M].
  unfold bind at 1. unfold printf. rewrite !bind_modify_run.
  change (Field (GoHeap.Val Samples.record_1 (Some 4096%N) false) 0)
    with (GoHeap.Val (GoHeap.int 1) (Some 4096%N) false).
  change (Field (GoHeap.Val Samples.record_2 (Some 4104%N) false) 0)
    with (GoHeap.Val (GoHeap.int 2) (Some 4104%N) false).
  change (activation (λ _ _ : GoHeap.Value, diverge))
    with (deepValueEqual (H := GoHeap.GoReflect Samples.records_heap (λ _, "...")) 1).
  match goal with |- context [deepValueEqual 1 ?c1 ?c2 ?s1] =>
    destruct (deepValueEqual_scalars
                (H := GoHeap.GoReflect Samples.records_heap (λ _, "..."))
                0 c1 c2 false s1) as [s' ->]
  end.
  - repeat split. by eexists _, _.
  - by eexists.
Qed.

Lemma maps_unordered_arrays_ordered_witness :
  (∃ trace, GoHeap.run Samples.order_heap 2
              (Some Samples.map_ab) (Some Samples.map_ba) = Returns true trace)
  ∧ (∃ trace, GoHeap.run Samples.order_heap 2
                (Some Samples.array_123) (Some Samples.array_132)
              = Returns false trace)
  ∧ (∃ trace, GoHeap.run Samples.records_heap 4
                (Some Samples.records_pq) (Some Samples.records_qp)
              = Returns false trace).
Proof.
  assert (∀ (h : GoHeap.heap) (c1 c2 : GoHeap.tval) (b : bool),
            GoHeap.tval_type c1 = GoHeap.tval_type c2 →
            scalar_kind (GoHeap.kind_of (GoHeap.tval_data c1)) = true →
            GoHeap.tval_eq c1 c2 = b →
            finds (H := GoHeap.GoReflect h (λ _, "...")) (λ _, True) 1
              (GoHeap.Val c1 None false) (GoHeap.Val c2 None false) b) as Hscalar.
  { intros h c1 c2 b Ht Hk Hb s _.
    apply (deepValueEqual_scalars (H := GoHeap.GoReflect h (λ _, "..."))).
    repeat split; [exact Ht | exact Hk |]. by exists c1, c2. }
  split; [|split].
  - pose proof (GoReflect_laws Samples.order_heap (λ _, "...")) as HL.
    apply (proj1 (maps_unordered_arrays_ordered
                    (H := GoHeap.GoReflect Samples.order_heap (λ _, "..."))
                    (λ _, True) 1 Samples.map_ab Samples.map_ba eq_refl I));
      [reflexivity..|].
    intros k Hin. split; [|done]. vm_compute in Hin.
    apply elem_of_cons in Hin as [-> | Hin];
      [|apply elem_of_cons in Hin as [-> | Hin]; [|by apply elem_of_nil in Hin]].
    + apply (Hscalar _ (GoHeap.int 1) (GoHeap.int 1)); reflexivity.
    + apply (Hscalar _ (GoHeap.int 2) (GoHeap.int 2)); reflexivity.
  - pose proof (GoReflect_laws Samples.order_heap (λ _, "...")) as HL.
    apply (proj2 (maps_unordered_arrays_ordered
                    (H := GoHeap.GoReflect Samples.order_heap (λ _, "..."))
                    (λ _, True) 1 Samples.array_123 Samples.array_132 eq_refl I)
             eq_refl 1%nat); [cbn; lia | |].
    + intros [|j] Hj; [|lia]. split; [|done]. exists true.
      apply (Hscalar _ (GoHeap.int 1) (GoHeap.int 1)); reflexivity.
    + apply (Hscalar _ (GoHeap.int 2) (GoHeap.int 3)); reflexivity.
  - pose proof (GoReflect_laws Samples.records_heap (λ _, "...")) as HL.
    apply (proj2 (maps_unordered_arrays_ordered
                    (H := GoHeap.GoReflect Samples.records_heap (λ _, "..."))
                    Samples.records_unseen 3
                    Samples.records_pq Samples.records_qp eq_refl eq_refl)
             eq_refl 0%nat); [cbn; lia | intros j Hj; lia |].
    exact records_found_unequal.
Defined.
